(** * The realtime hub of chat-quick-chat-server

    A shallow embedding of [internal/realtime/realtime.go]: the topic
    registry ([Hub]), the per-connection [Client] with its bounded outbound
    channel, the protocol dispatch of [handleMessage] and the inbound pump.

    Pointers to clients are addresses into a heap of client records, so that
    the hub's maps and a client's own fields alias the same object.  Go
    channels are modelled by their buffer and their closed flag; a send on a
    closed channel and a close of a closed channel panic, as in Go.
    [encoding/json] is an external library: its [Marshal] and [Unmarshal]
    are parameters of the development. *)

From stdpp Require Import gmap strings list fin_maps sorting.
From Stdlib Require Import Strings.Byte.

#[local] Set Warnings "-clear-no-such-hyp".

(** ** Data model *)

(** [[]byte]: a serialized frame. *)
Definition Frame := list byte.

(** [interface{}] payloads.  The handlers only build string-keyed maps of
    strings and maps; [VOpaque] stands for any other Go value a caller of
    [Broadcast] may hand over. *)
#[warnings="-register-all"]
Inductive Value :=
| VNil
| VString (s : string)
| VMap (fields : list (string * Value))
| VOpaque (tag : nat).

Module IncomingMessage.
Record t := mk {
  Topic : string;
  Event : string;
  Payload : Frame;      (* json.RawMessage *)
  Ref : string
}.
End IncomingMessage.

Module OutgoingMessage.
Record t := mk {
  Topic : string;
  Event : string;
  Payload : Value;
  Ref : string          (* omitempty: the empty string is left out *)
}.
End OutgoingMessage.

Module BroadcastMessage.
Record t := mk {
  Topic : string;
  Msg : OutgoingMessage.t;
  Ref : option Z        (* *int *)
}.
End BroadcastMessage.

(** [*Client]. *)
Definition ptr := nat.

(** [chan []byte] with the capacity [ServeWs] gives it. *)
Record Chan := mkChan {
  buf : list Frame;
  closed : bool
}.

Definition sendCap : nat := 256.

Module Client.
Record t := mk {
  send : Chan;
  topics : gset string       (* map[string]bool *)
}.
End Client.

Module Hub.
Record t := mk {
  clients : gset ptr;                  (* map[*Client]bool *)
  topics : gmap string (gset ptr)      (* map[string]map[*Client]bool *)
}.
End Hub.

Record World := mkWorld {
  hub : Hub.t;
  heap : gmap ptr Client.t
}.

(** What [ServeWs] allocates: [make(chan []byte, 256)] and an empty map. *)
Definition new_client : Client.t :=
  Client.mk (mkChan [] false) ∅.

(** [NewHub()] and no client allocated yet. *)
Definition NewHub : World :=
  mkWorld (Hub.mk ∅ ∅) ∅.

Definition get_client (c : ptr) (w : World) : Client.t :=
  default new_client (heap w !! c).

Definition set_client (c : ptr) (r : Client.t) (w : World) : World :=
  mkWorld (hub w) (<[c := r]> (heap w)).

Definition set_hub (h : Hub.t) (w : World) : World :=
  mkWorld h (heap w).

Definition queue (c : ptr) (w : World) : list Frame :=
  buf (Client.send (get_client c w)).

Definition is_closed (c : ptr) (w : World) : bool :=
  closed (Client.send (get_client c w)).

Definition joined (c : ptr) (w : World) : gset string :=
  Client.topics (get_client c w).

Definition subscribers (topic : string) (w : World) : gset ptr :=
  default ∅ (Hub.topics (hub w) !! topic).

Definition live (w : World) : gset ptr := Hub.clients (hub w).

(** ** Outcomes of a call *)

Inductive panic :=
| SendOnClosedChannel
| CloseOfClosedChannel
| SliceBoundsOutOfRange.

(** A call returns, panics, or parks its goroutine on a full channel.  The
    world is the one at the moment of the return, panic or park. *)
Inductive outcome (A : Type) :=
| Ok (a : A) (w : World)
| Panicked (p : panic) (w : World)
| Blocked (w : World).
Arguments Ok {A} a w.
Arguments Panicked {A} p w.
Arguments Blocked {A} w.

Definition M (A : Type) : Type := World → outcome A.

Definition world_of {A} (o : outcome A) : World :=
  match o with
  | Ok _ w | Panicked _ w | Blocked w => w
  end.

Definition ret {A} (a : A) : M A := λ w, Ok a w.

Definition bind {A B} (m : M A) (k : A → M B) : M B :=
  λ w, match m w with
       | Ok a w' => k a w'
       | Panicked p w' => Panicked p w'
       | Blocked w' => Blocked w'
       end.

(** A call whose caller has deferred [d]: when the call panics, [d] runs
    while the panic unwinds, and the panic goes on. *)
Definition unwinding {A} (d : M unit) (m : M A) : M A :=
  λ w, match m w with
       | Panicked p w' => Panicked p (world_of (d w'))
       | o => o
       end.

Declare Scope go_scope.
Delimit Scope go_scope with go.
Notation "'do' x <- m 'in' k" := (bind m (λ x, k))
  (at level 10, x name, m at level 100, k at level 200) : go_scope.
Notation "m >> k" := (bind m (λ _, k))
  (at level 61, left associativity) : go_scope.
Open Scope go_scope.

Definition modify (f : World → World) : M unit := λ w, Ok tt (f w).

(** ** Channel operations *)

Definition enqueue (c : ptr) (data : Frame) (w : World) : World :=
  let r := get_client c w in
  set_client c
    (Client.mk (mkChan (buf (Client.send r) ++ [data]) (closed (Client.send r)))
               (Client.topics r)) w.

Definition mark_closed (c : ptr) (w : World) : World :=
  let r := get_client c w in
  set_client c (Client.mk (mkChan (buf (Client.send r)) true) (Client.topics r)) w.

Definition has_room (c : ptr) (w : World) : bool :=
  bool_decide (length (queue c w) < sendCap).

(** [close(c.send)] *)
Definition chan_close (c : ptr) : M unit :=
  λ w, if is_closed c w then Panicked CloseOfClosedChannel w
       else Ok tt (mark_closed c w).

(** [c.send <- data] *)
Definition chan_send (c : ptr) (data : Frame) : M unit :=
  λ w, if is_closed c w then Panicked SendOnClosedChannel w
       else if has_room c w then Ok tt (enqueue c data w)
       else Blocked w.

(** [select { case c.send <- data: default: dflt }] *)
Definition select_send (c : ptr) (data : Frame) (dflt : M unit) : M unit :=
  λ w, if is_closed c w then Panicked SendOnClosedChannel w
       else if has_room c w then Ok tt (enqueue c data w)
       else dflt w.

(** [<-c.send] in [writePump], when a frame is buffered. *)
Definition recv (c : ptr) (w : World) : World :=
  let r := get_client c w in
  set_client c
    (Client.mk (mkChan (tail (buf (Client.send r))) (closed (Client.send r)))
               (Client.topics r)) w.

(** ** The registry's critical sections *)

(** The block shared by the unregister case of [Hub.Run] and by
    [phx_leave]:
    [if clients, ok := h.topics[topic]; ok { delete(clients, c);
       if len(clients) == 0 { delete(h.topics, topic) } }].
    [clients] aliases the inner map, so the deletion is seen through
    [h.topics]. *)
Definition drop_subscriber (c : ptr) (tm : gmap string (gset ptr)) (topic : string)
  : gmap string (gset ptr) :=
  match tm !! topic with
  | Some clients =>
      let clients' := clients ∖ {[c]} in
      let tm' := <[topic := clients']> tm in
      if decide (size clients' = 0) then delete topic tm' else tm'
  | None => tm
  end.

(** [phx_join], between [Lock] and [Unlock]. *)
Definition Join (c : ptr) (topic : string) (w : World) : World :=
  let h := hub w in
  let tm := Hub.topics h in
  let tm1 := match tm !! topic with
             | None => <[topic := ∅]> tm       (* make(map[*Client]bool) *)
             | Some _ => tm
             end in
  let tm2 := alter (λ clients, {[c]} ∪ clients) topic tm1 in
  let r := get_client c w in
  set_client c (Client.mk (Client.send r) ({[topic]} ∪ Client.topics r))
    (set_hub (Hub.mk (Hub.clients h) tm2) w).

(** [phx_leave], between [Lock] and [Unlock]. *)
Definition Leave (c : ptr) (topic : string) (w : World) : World :=
  let h := hub w in
  let tm := drop_subscriber c (Hub.topics h) topic in
  let r := get_client c w in
  set_client c (Client.mk (Client.send r) (Client.topics r ∖ {[topic]}))
    (set_hub (Hub.mk (Hub.clients h) tm) w).

(** The register case of [Hub.Run]. *)
Definition Run_register (c : ptr) : M unit :=
  modify (λ w, set_hub (Hub.mk ({[c]} ∪ Hub.clients (hub w)) (Hub.topics (hub w))) w).

Definition delete_client (c : ptr) : M unit :=
  modify (λ w, set_hub (Hub.mk (Hub.clients (hub w) ∖ {[c]}) (Hub.topics (hub w))) w).

(** The unregister case of [Hub.Run]; [client.topics] is ranged over and
    left as it is. *)
Definition Run_unregister (c : ptr) : M unit :=
  λ w, if decide (c ∈ Hub.clients (hub w)) then
         (delete_client c >>
          chan_close c >>
          modify (λ w, set_hub
                         (Hub.mk (Hub.clients (hub w))
                                 (foldl (drop_subscriber c) (Hub.topics (hub w))
                                        (elements (joined c w)))) w)) w
       else Ok tt w.

(** The fan-out loop of the broadcast case, over the subscribers in the
    order [range] happens to yield them. *)
Fixpoint fanout (data : Frame) (order : list ptr) : M unit :=
  match order with
  | [] => ret tt
  | client :: rest =>
      select_send client data (chan_close client >> delete_client client) >>
      fanout data rest
  end.

(** What one visit of the fan-out loop does to an open channel: the frame is
    buffered when there is room, otherwise the [default] branch closes the
    channel and deletes the client from [h.clients], and from nothing
    else. *)
Definition evict (c : ptr) (w : World) : World :=
  let w1 := mark_closed c w in
  set_hub (Hub.mk (Hub.clients (hub w1) ∖ {[c]}) (Hub.topics (hub w1))) w1.

Definition visit (data : Frame) (w : World) (c : ptr) : World :=
  if has_room c w then enqueue c data w else evict c w.

(** ** Strings *)

(** [s[n:]]: a slice expression panics when [n] exceeds [len(s)]. *)
Definition slice_from (s : string) (n : nat) : M string :=
  λ w, if bool_decide (n ≤ String.length s)
       then Ok (String.substring n (String.length s - n) s) w
       else Panicked SliceBoundsOutOfRange w.

(** ** Reply envelopes built by [handleMessage] *)

Definition status_ok : string * Value := ("status", VString "ok").

Definition join_reply (topic ref sessionID : string) : OutgoingMessage.t :=
  OutgoingMessage.mk topic "phx_reply"
    (VMap [status_ok;
           ("response",
            VMap [("event", VString "INSERT");
                  ("filter", VString ("session_id=eq." +:+ sessionID));
                  ("schema", VString "public");
                  ("table", VString "messages")])])
    ref.

Definition system_reply (topic channel : string) : OutgoingMessage.t :=
  OutgoingMessage.mk topic "system"
    (VMap [("channel", VString channel);
           ("message", VString "Subscribed to PostgreSQ");
           ("extension", VString "postgres_changes");
           status_ok])
    "".

Definition heartbeat_reply (ref : string) : OutgoingMessage.t :=
  OutgoingMessage.mk "phoenix" "phx_reply"
    (VMap [status_ok; ("response", VMap [])])
    ref.

Definition leave_reply (topic ref : string) : OutgoingMessage.t :=
  OutgoingMessage.mk topic "phx_reply"
    (VMap [status_ok; ("response", VMap [])])
    ref.

(** The envelope [Hub.Broadcast] builds. *)
Definition published (topic event : string) (payload : Value) : OutgoingMessage.t :=
  OutgoingMessage.mk topic event payload "".

(** What a transport read hands to [readPump]. *)
Inductive ReadResult :=
| ReadError
| ReadMessage (message : Frame).

Inductive PumpStatus :=
| Reading       (* blocked in [ReadMessage], the loop goes on *)
| Stopped.      (* left the loop; the deferred unregister has run *)

(** What [Hub.Run] receives in one turn of its [select]. *)
Inductive HubMsg :=
| Register (client : ptr)
| Unregister (client : ptr)
| BroadcastMsg (message : BroadcastMessage.t).

Section Realtime.

(** [json.Marshal] and [json.Unmarshal]; [None] is a non-nil [err]. *)
Variable marshal : OutgoingMessage.t → option Frame.
Variable unmarshal : Frame → option IncomingMessage.t.

(** The broadcast case of [Hub.Run]; [order] is the order in which
    [range clients] visits the subscribers. *)
Definition Run_broadcast (order : list ptr) (message : BroadcastMessage.t) : M unit :=
  λ w, match Hub.topics (hub w) !! BroadcastMessage.Topic message with
       | Some clients =>
           match marshal (BroadcastMessage.Msg message) with
           | Some data => fanout data order w
           | None => Ok tt w
           end
       | None => Ok tt w
       end.

(** One turn of the loop of [Hub.Run]. *)
Definition Run (order : list ptr) (m : HubMsg) : M unit :=
  match m with
  | Register client => Run_register client
  | Unregister client => Run_unregister client
  | BroadcastMsg message => Run_broadcast order message
  end.

(** [Hub.Broadcast], with the hub's turn that consumes the message. *)
Definition Broadcast (order : list ptr) (topic event : string) (payload : Value)
  : M unit :=
  let msg := published topic event payload in
  Run order (BroadcastMsg (BroadcastMessage.mk topic msg None)).

Definition sendJSON (c : ptr) (v : OutgoingMessage.t) : M unit :=
  match marshal v with
  | None => ret tt
  | Some data => chan_send c data
  end.

Definition handleMessage (c : ptr) (msg : IncomingMessage.t) : M unit :=
  let topic := IncomingMessage.Topic msg in
  let ref := IncomingMessage.Ref msg in
  if decide (IncomingMessage.Event msg = "phx_join") then
    modify (Join c topic) >>
    (do sessionID <- slice_from topic (String.length "realtime:messages:") in
     sendJSON c (join_reply topic ref sessionID) >>
     (do channel <- slice_from topic (String.length "realtime:") in
      sendJSON c (system_reply topic channel)))
  else if decide (IncomingMessage.Event msg = "heartbeat") then
    sendJSON c (heartbeat_reply ref)
  else if decide (IncomingMessage.Event msg = "phx_leave") then
    modify (Leave c topic) >>
    sendJSON c (leave_reply topic ref)
  else ret tt.

(** The loop of [readPump] over what the transport delivers.  A read
    error leaves the loop and runs the deferred [c.hub.unregister <- c]; a
    panic of [handleMessage] runs it too, on its way up. *)
Fixpoint readPump (c : ptr) (reads : list ReadResult) : M PumpStatus :=
  match reads with
  | [] => ret Reading
  | ReadError :: _ => Run [] (Unregister c) >> ret Stopped
  | ReadMessage message :: rest =>
      match unmarshal message with
      | None => readPump c rest                       (* continue *)
      | Some msg =>
          unwinding (Run [] (Unregister c)) (handleMessage c msg) >> readPump c rest
      end
  end.

(** [ServeWs] after a successful upgrade: [c] is the address of the new
    client. *)
Definition ServeWs (c : ptr) : M unit :=
  modify (set_client c new_client) >> Run [] (Register c).

(** ** The serialized order of operations *)

Inductive op :=
| OpServeWs (c : ptr)
| OpUnregister (c : ptr)
| OpMessage (c : ptr) (msg : IncomingMessage.t)
| OpBroadcast (order : list ptr) (topic event : string) (payload : Value)
| OpSend (c : ptr) (v : OutgoingMessage.t)
| OpRecv (c : ptr).

Definition exec (o : op) : M unit :=
  match o with
  | OpServeWs c => ServeWs c
  | OpUnregister c => Run [] (Unregister c)
  | OpMessage c msg => handleMessage c msg
  | OpBroadcast order topic event payload => Broadcast order topic event payload
  | OpSend c v => sendJSON c v
  | OpRecv c => modify (recv c)
  end.

(** [ServeWs] allocates a fresh client, the other operations act on
    allocated ones, and [range] visits every subscriber once.  [OpSend] is a
    [sendJSON] of a handler that had parked on a full channel and goes on
    once [writePump] has made room ([OpRecv]). *)
Definition valid_op (w : World) (o : op) : Prop :=
  match o with
  | OpServeWs c => heap w !! c = None
  | OpUnregister c | OpMessage c _ | OpSend c _ | OpRecv c => is_Some (heap w !! c)
  | OpBroadcast order topic _ _ => order ≡ₚ elements (subscribers topic w)
  end.

(** The worlds the process passes through: a call that parks or panics
    after its critical section has still published its mutation. *)
Inductive reachable : World → Prop :=
| reachable_init : reachable NewHub
| reachable_step w o :
    reachable w → valid_op w o → reachable (world_of (exec o w)).

(** Running a whole trace, stopping at the first call that does not
    return. *)
Fixpoint run (os : list op) : M unit :=
  match os with
  | [] => ret tt
  | o :: os' => exec o >> run os'
  end.

Global Instance valid_op_dec w o : Decision (valid_op w o).
Proof. destruct o; cbn; apply _. Defined.

(** Every operation of the trace is valid where it runs. *)
Fixpoint valid_trace (os : list op) (w : World) : bool :=
  match os with
  | [] => true
  | o :: os' =>
      bool_decide (valid_op w o) &&
      match exec o w with
      | Ok _ w' => valid_trace os' w'
      | _ => true
      end
  end.

End Realtime.

(** The value under key [k] of a string-keyed map payload. *)
Definition field (k : string) (v : Value) : option Value :=
  match v with
  | VMap fields => (λ found, snd (snd found)) <$> list_find (λ kv, fst kv = k) fields
  | _ => None
  end.

(** ** Invariants and how calls keep them *)

Definition no_empty_topics (w : World) : Prop :=
  ∀ topic clients, Hub.topics (hub w) !! topic = Some clients → clients ≠ ∅.

Definition allocated (c : ptr) (w : World) : Prop := is_Some (heap w !! c).

(** What the serialized operations maintain between the hub's maps and the
    client records: members of the hub's maps are allocated clients, a live
    client has an open channel, and a client's joined set covers the topics
    it is subscribed to. *)
Record registry_wf (w : World) : Prop := mk_registry_wf {
  wf_live_alloc : ∀ c, c ∈ live w → allocated c w;
  wf_sub_alloc : ∀ c t, c ∈ subscribers t w → allocated c w;
  wf_live_open : ∀ c, c ∈ live w → is_closed c w = false;
  wf_sub_joined : ∀ c t, c ∈ subscribers t w → t ∈ joined c w
}.

(** [m] panics only in the ways [Q] allows. *)
Definition panics_only {A} (Q : panic → Prop) (m : M A) : Prop :=
  ∀ w p w', m w = Panicked p w' → Q p.

(** [m] keeps [P], also when it panics or parks on the way. *)
Definition preserves {A} (P : World → Prop) (m : M A) : Prop :=
  ∀ w, P w → P (world_of (m w)).

Definition not_a_close (p : panic) : Prop := p ≠ CloseOfClosedChannel.

(** ** A worked scenario

    A stand-in for [json.Marshal] that fails exactly on an opaque payload,
    two sessions on one topic, and a trace in which session [1] never drains
    its channel while session [2] does. *)

Definition plain_marshal (m : OutgoingMessage.t) : option Frame :=
  match OutgoingMessage.Payload m with
  | VOpaque _ => None
  | _ => Some (String.list_byte_of_string
                 (OutgoingMessage.Topic m +:+ "|" +:+ OutgoingMessage.Event m
                  +:+ "|" +:+ OutgoingMessage.Ref m))
  end.

Definition plain_unmarshal (message : Frame) : option IncomingMessage.t :=
  match message with
  | [] => None
  | _ => Some (IncomingMessage.mk (String.string_of_list_byte message) "heartbeat" [] "")
  end.

Definition room : string := "realtime:messages:S1".

Definition join_msg (topic : string) : IncomingMessage.t :=
  IncomingMessage.mk topic "phx_join" [] "1".

Definition two_joined : list op :=
  [OpServeWs 1; OpServeWs 2; OpMessage 1 (join_msg room); OpMessage 2 (join_msg room)].

Definition change : op := OpBroadcast [1; 2] room "postgres_changes" (VMap []).

(** Each of the 254 publishes is drained by session [2] only; with its two
    join replies, session [1] then holds 256 frames. *)
Definition slow_trace : list op :=
  two_joined ++ mjoin (replicate 254 [change; OpRecv 2]).

Definition two_joined_world : World := world_of (run plain_marshal two_joined NewHub).

Definition slow_world : World := world_of (run plain_marshal slow_trace NewHub).

(** Session [1] is then evicted by one more publish, and its read pump
    unregisters it. *)
Definition evicted_trace : list op :=
  slow_trace ++ [change; OpUnregister 1].

Definition evicted_world : World := world_of (run plain_marshal evicted_trace NewHub).

Definition one_session_world : World :=
  world_of (run plain_marshal [OpServeWs 1] NewHub).

(** Closed decidable facts about the scenario are settled by evaluation. *)
Ltac by_evaluation := apply (bool_decide_unpack _); vm_compute; exact I.

(** * The rest of the code

    ** The outbound pump *)

(** What [writePump] writes to the connection. *)
Inductive WsMessage :=
| TextMessage (data : Frame)
| CloseMessage
| PingMessage.

(** What wakes the [select] of [writePump]: the channel, or the ticker, with
    whether the write of the ping fails. *)
Inductive PumpEvent :=
| SendReady
| Tick (err : bool).

Inductive WriteStatus :=
| Writing       (* back at the [select] *)
| Returned.     (* [writePump] has returned *)

(** [message, ok := <-c.send]: a buffered frame comes first, also on a closed
    channel; an empty closed channel yields the zero value and [false]; an
    empty open channel parks the receiver. *)
Definition chan_recv (c : ptr) : M (Frame * bool) :=
  λ w, match queue c w with
       | message :: _ => Ok (message, true) (recv c w)
       | [] => if is_closed c w then Ok ([], false) w else Blocked w
       end.

(** [len(c.send)] *)
Definition chan_len (c : ptr) : M nat :=
  λ w, Ok (length (queue c w)) w.

(** [for i := 0; i < n; i++ { msg := <-c.send; c.conn.WriteMessage(TextMessage, msg) }] *)
Fixpoint drain (c : ptr) (n : nat) : M (list WsMessage) :=
  match n with
  | 0 => ret []
  | S n' =>
      do r <- chan_recv c in
      do rest <- drain c n' in
      ret (TextMessage (fst r) :: rest)
  end.

(** One turn of the loop of [writePump]; the result is what was written to
    the connection, in order.  Write errors of text frames are not looked at
    by the code. *)
Definition writePump_turn (c : ptr) (ev : PumpEvent) : M (list WsMessage * WriteStatus) :=
  match ev with
  | SendReady =>
      do r <- chan_recv c in
      if snd r then
        (do n <- chan_len c in
         do rest <- drain c n in
         ret (TextMessage (fst r) :: rest, Writing))
      else ret ([CloseMessage], Returned)      (* the hub closed the channel *)
  | Tick err =>
      if err then ret ([], Returned) else ret ([PingMessage], Writing)
  end.

Fixpoint writePump (c : ptr) (events : list PumpEvent) : M (list WsMessage * WriteStatus) :=
  match events with
  | [] => ret ([], Writing)
  | ev :: rest =>
      do r <- writePump_turn c ev in
      match snd r with
      | Returned => ret r
      | Writing =>
          do r' <- writePump c rest in
          ret (fst r ++ fst r', snd r')
      end
  end.

(** The frames an inbound stream makes [readPump] skip: those that do not
    decode, and those whose event is none of the three handled ones. *)
Definition ignored (unmarshal : Frame → option IncomingMessage.t) (r : ReadResult) : Prop :=
  match r with
  | ReadError => False
  | ReadMessage message =>
      match unmarshal message with
      | None => True
      | Some msg =>
          IncomingMessage.Event msg ≠ "phx_join" ∧
          IncomingMessage.Event msg ≠ "heartbeat" ∧
          IncomingMessage.Event msg ≠ "phx_leave"
      end
  end.

(** ** Package [db] *)

Module db.

(** [time.Time] as an instant, counted from the zero time. *)
Definition Time := Z.

Module ChatSession.
Record t := mk {
  ID : string;
  CreatedAt : Time
}.
End ChatSession.

Module Message.
Record t := mk {
  ID : string;
  SessionID : string;
  Content : option string;       (* *string *)
  MessageType : string;
  FileURL : option string;
  SenderName : option string;
  CreatedAt : Time
}.
End Message.

Module Database.
Record t := mk {
  Sessions : list ChatSession.t;
  Messages : list Message.t;
  DataDir : string
}.
End Database.

(** A result with an error: a value, or the error text. *)
Inductive res (A : Type) :=
| Return (a : A)
| Error (err : string).
Arguments Return {A} a.
Arguments Error {A} err.

Definition New (dataDir : string) : Database.t :=
  Database.mk [] [] dataDir.

(** [uuid.New().String()], [time.Now().UTC()] and the outcome of [db.save()]
    (the file system) come from the environment: [uuid], [now] and
    [saveErr], where [None] is a nil error. *)
Definition CreateSession (uuid : string) (now : Time) (saveErr : option string)
    (d : Database.t) : Database.t * res ChatSession.t :=
  let session := ChatSession.mk uuid now in
  let d' := Database.mk (Database.Sessions d ++ [session]) (Database.Messages d)
                        (Database.DataDir d) in
  match saveErr with
  | Some err => (d', Error err)
  | None => (d', Return session)
  end.

Definition GetSession (id : string) (d : Database.t) : res ChatSession.t :=
  match List.find (λ s, bool_decide (ChatSession.ID s = id)) (Database.Sessions d) with
  | Some s => Return s
  | None => Error "session not found"
  end.

Definition CreateMessage (uuid : string) (now : Time) (saveErr : option string)
    (msg : Message.t) (d : Database.t) : Database.t * res Message.t :=
  let msg1 :=
    if decide (Message.ID msg = "")
    then Message.mk uuid (Message.SessionID msg) (Message.Content msg)
           (Message.MessageType msg) (Message.FileURL msg) (Message.SenderName msg)
           (Message.CreatedAt msg)
    else msg in
  let msg2 :=
    if decide (Message.CreatedAt msg1 = 0%Z)          (* IsZero *)
    then Message.mk (Message.ID msg1) (Message.SessionID msg1) (Message.Content msg1)
           (Message.MessageType msg1) (Message.FileURL msg1) (Message.SenderName msg1)
           now
    else msg1 in
  let d' := Database.mk (Database.Sessions d) (Database.Messages d ++ [msg2])
                        (Database.DataDir d) in
  match saveErr with
  | Some err => (d', Error err)
  | None => (d', Return msg2)
  end.

(** [result[i].CreatedAt.Before(result[j].CreatedAt)] *)
Definition before (a b : Message.t) : bool :=
  bool_decide (Message.CreatedAt a < Message.CreatedAt b)%Z.

(** [sort_slice] is [sort.Slice] of the standard library, on the elements. *)
Definition GetMessages
    (sort_slice : (Message.t → Message.t → bool) → list Message.t → list Message.t)
    (sessionID : string) (d : Database.t) : list Message.t :=
  let result := filter (λ m, Message.SessionID m = sessionID) (Database.Messages d) in
  sort_slice before result.

(** The order [GetMessages] asks [sort.Slice] for. *)
Definition created_le (a b : Message.t) : Prop :=
  (Message.CreatedAt a ≤ Message.CreatedAt b)%Z.

End db.

(** ** Package [handlers] *)

Module handlers.

(** [s[n:]] as a value: [None] is the panic. *)
Definition string_slice (s : string) (n : nat) : option string :=
  if bool_decide (n ≤ String.length s)
  then Some (String.substring n (String.length s - n) s)
  else None.

Definition extractEqValue (s : string) : option string :=
  if String.prefix "eq." s then string_slice s 3 else Some s.

(** What a handler writes: nothing, [http.Error], or a status with the value
    handed to the JSON encoder.  Headers are left out. *)
Inductive Response :=
| NoResponse
| HttpError (code : nat) (message : string)
| EncodeSession (code : nat) (session : db.ChatSession.t)
| EncodeSessionList (code : nat) (sessions : list (option db.ChatSession.t))
| EncodeMessages (code : nat) (messages : list db.Message.t).

Definition StatusOK : nat := 200.
Definition StatusCreated : nat := 201.
Definition StatusBadRequest : nat := 400.
Definition StatusInternalServerError : nat := 500.

(** The topic [handleMessages] publishes a created message under. *)
Definition message_topic (sessionID : string) : string :=
  "realtime:messages:" +:+ sessionID.

(** [handleChatSessions]; [idParam] is [r.URL.Query().Get("id")]. *)
Definition handleChatSessions (uuid : string) (now : db.Time) (saveErr : option string)
    (method idParam : string) (d : db.Database.t) : db.Database.t * Response :=
  if decide (method = "POST") then
    match db.CreateSession uuid now saveErr d with
    | (d', db.Error err) => (d', HttpError StatusInternalServerError err)
    | (d', db.Return session) => (d', EncodeSession StatusOK session)
    end
  else if decide (method = "GET") then
    if decide (idParam = "") then (d, HttpError StatusBadRequest "Missing id parameter")
    else
      match extractEqValue idParam with
      | None => (d, NoResponse)                     (* the slice would panic *)
      | Some id =>
          match db.GetSession id d with
          | db.Error _ => (d, EncodeSessionList StatusOK [None])   (* [session] is nil *)
          | db.Return session => (d, EncodeSession StatusOK session)
          end
      end
  else (d, NoResponse).

Section Messages.

(** [sort.Slice], [json.Marshal], and the Go values of the change payload
    that are not string-keyed maps of strings: the timestamp, the record,
    the column list and the empty id list. *)
Variable sort_slice :
  (db.Message.t → db.Message.t → bool) → list db.Message.t → list db.Message.t.
Variable marshal : OutgoingMessage.t → option Frame.
Variable time_value : db.Time → Value.
Variable record_value : db.Message.t → Value.
Variable columns_value : Value.
Variable ids_value : Value.

Definition change_payload (createdMsg : db.Message.t) : Value :=
  VMap [("data",
         VMap [("schema", VString "public");
               ("table", VString "messages");
               ("commit_timestamp", time_value (db.Message.CreatedAt createdMsg));
               ("type", VString "INSERT");
               ("record", record_value createdMsg);
               ("old", VMap []);
               ("errors", VNil);
               ("columns", columns_value)]);
        ("ids", ids_value)].

(** [handleMessages]; [decoded] is the outcome of decoding the body,
    [sessionIDParam] is [r.URL.Query().Get("session_id")], and [order] the
    order of the hub's fan-out. *)
Definition handleMessages (uuid : string) (now : db.Time) (saveErr : option string)
    (order : list ptr)
    (method sessionIDParam : string) (decoded : db.res db.Message.t)
    (d : db.Database.t) : M (db.Database.t * Response) :=
  if decide (method = "POST") then
    match decoded with
    | db.Error err => ret (d, HttpError StatusBadRequest err)
    | db.Return msg =>
        match db.CreateMessage uuid now saveErr msg d with
        | (d', db.Error err) => ret (d', HttpError StatusInternalServerError err)
        | (d', db.Return createdMsg) =>
            Broadcast marshal order
              (message_topic (db.Message.SessionID createdMsg))
              "postgres_changes" (change_payload createdMsg) >>
            ret (d', EncodeMessages StatusCreated [createdMsg])
        end
    end
  else if decide (method = "GET") then
    if decide (sessionIDParam = "")
    then ret (d, HttpError StatusBadRequest "Missing session_id parameter")
    else
      match extractEqValue sessionIDParam with
      | None => ret (d, NoResponse)                 (* the slice would panic *)
      | Some sessionID =>
          ret (d, EncodeMessages StatusOK (db.GetMessages sort_slice sessionID d))
      end
  else ret (d, NoResponse).

End Messages.

(** Where [ServeHTTP] sends a request, after it has set the CORS headers. *)
Inductive Route :=
| Preflight                 (* OPTIONS: 200 and nothing else *)
| ToChatSessions
| ToMessages
| ToStorageUpload
| ToStorageServe
| ToServeWs
| NotFound.

Definition ServeHTTP (method path : string) : Route :=
  if decide (method = "OPTIONS") then Preflight
  else if String.prefix "/rest/v1/chat_sessions" path then ToChatSessions
  else if String.prefix "/rest/v1/messages" path then ToMessages
  else if String.prefix "/storage/v1/object/chat-media/" path then ToStorageUpload
  else if String.prefix "/storage/v1/object/public/chat-media/" path then ToStorageServe
  else if String.prefix "/realtime/v1/websocket" path then ToServeWs
  else NotFound.

End handlers.

(** ** Scenario data for the rest of the code *)

Definition hello : db.Message.t :=
  db.Message.mk "" "S1" (Some "hello") "text" None None 0%Z.

Definition stored : db.Message.t :=
  db.Message.mk "m0" "S2" None "text" None None 5%Z.

Definition one_message_db : db.Database.t :=
  db.Database.mk [db.ChatSession.mk "S2" 1%Z] [stored] "data".

(** A sort meeting the contract of [sort.Slice] for the order it is given. *)
Definition not_after (less : db.Message.t → db.Message.t → bool)
    (a b : db.Message.t) : Prop :=
  less b a = false.

Global Instance not_after_dec less a b : Decision (not_after less a b).
Proof. unfold not_after. apply _. Defined.

Definition merge_sort_slice (less : db.Message.t → db.Message.t → bool)
    (l : list db.Message.t) : list db.Message.t :=
  merge_sort (not_after less) l.

(** After its eviction the write pump of session [1] writes out the backlog:
    the queue of [1] is empty again, its channel is closed, and the hub
    still has it in the topic. *)
Definition drained_trace : list op :=
  slow_trace ++ [change] ++ replicate 256 (OpRecv 1).

Definition drained_world : World := world_of (run plain_marshal drained_trace NewHub).

(** Two sessions served, of which only [1] has joined the topic. *)
Definition one_joined : list op :=
  [OpServeWs 1; OpServeWs 2; OpMessage 1 (join_msg room)].

Definition one_joined_world : World := world_of (run plain_marshal one_joined NewHub).

Definition heartbeat_msg : IncomingMessage.t :=
  IncomingMessage.mk "anywhere" "heartbeat" [] "R1".

(** Sorting what [writePump] wrote and what woke it. *)
Definition is_ping (m : WsMessage) : bool :=
  match m with
  | PingMessage => true
  | _ => false
  end.

Definition is_send_ready (ev : PumpEvent) : bool :=
  match ev with
  | SendReady => true
  | Tick _ => false
  end.

(** The messages written other than the keepalive pings. *)
Definition without_pings (written : list WsMessage) : list WsMessage :=
  List.filter (λ m, negb (is_ping m)) written.

(** How often the channel wakes the pump in a schedule. *)
Definition channel_wakeups (events : list PumpEvent) : nat :=
  length (List.filter is_send_ready events).

(** * Properties *)

(** ** The heap of client records *)

Lemma get_client_set_eq c r w : get_client c (set_client c r w) = r.
Proof. unfold get_client, set_client; simpl. by rewrite lookup_insert_eq. Qed.

Lemma get_client_set_ne c c' r w :
  c ≠ c' → get_client c' (set_client c r w) = get_client c' w.
Proof. intros Hne. unfold get_client, set_client; simpl. by rewrite lookup_insert_ne. Qed.

Lemma get_client_set_hub c h w : get_client c (set_hub h w) = get_client c w.
Proof. reflexivity. Qed.

Lemma hub_set_client c r w : hub (set_client c r w) = hub w.
Proof. reflexivity. Qed.

Lemma select_send_open data c w :
  is_closed c w = false →
  select_send c data (chan_close c >> delete_client c) w = Ok tt (visit data w c).
Proof.
  intros Hopen. unfold select_send, visit. rewrite Hopen.
  destruct (has_room c w); [done|].
  unfold bind, chan_close. by rewrite Hopen.
Qed.

Lemma visit_other data c c' w : c ≠ c' → get_client c' (visit data w c) = get_client c' w.
Proof.
  intros Hne. unfold visit, evict, enqueue, mark_closed.
  destruct (has_room c w); rewrite ?get_client_set_hub; by rewrite get_client_set_ne.
Qed.

Lemma visit_topics data c w : Hub.topics (hub (visit data w c)) = Hub.topics (hub w).
Proof. unfold visit. by destruct (has_room c w). Qed.

Lemma visit_joined data c c' w : joined c' (visit data w c) = joined c' w.
Proof.
  destruct (decide (c = c')) as [<-|Hne].
  - unfold joined, visit, evict, enqueue, mark_closed.
    destruct (has_room c w); rewrite ?get_client_set_hub; by rewrite get_client_set_eq.
  - unfold joined. by rewrite visit_other.
Qed.

Lemma visit_room data c w :
  has_room c w = true →
  queue c (visit data w c) = queue c w ++ [data] ∧
  is_closed c (visit data w c) = is_closed c w ∧
  hub (visit data w c) = hub w.
Proof.
  intros Hroom. unfold visit. rewrite Hroom.
  unfold queue, is_closed, enqueue. by rewrite get_client_set_eq.
Qed.

Lemma visit_full data c w :
  has_room c w = false →
  queue c (visit data w c) = queue c w ∧
  is_closed c (visit data w c) = true ∧
  live (visit data w c) = live w ∖ {[c]}.
Proof.
  intros Hfull. unfold visit. rewrite Hfull.
  unfold queue, is_closed, evict, mark_closed.
  rewrite get_client_set_hub. by rewrite get_client_set_eq.
Qed.

Lemma visit_live data c w c' :
  c' ∈ live (visit data w c) ↔ c' ∈ live w ∧ ¬ (c' = c ∧ has_room c w = false).
Proof.
  destruct (has_room c w) eqn:Hroom.
  - destruct (visit_room data c w Hroom) as (_ & _ & Hhub).
    unfold live. rewrite Hhub. naive_solver.
  - destruct (visit_full data c w Hroom) as (_ & _ & Hlive).
    rewrite Hlive. set_solver.
Qed.

(** The loop over an enumeration of open channels returns, and is the fold
    of [visit]. *)
Lemma fanout_open data order : ∀ w,
  NoDup order →
  (∀ c, c ∈ order → is_closed c w = false) →
  fanout data order w = Ok tt (foldl (visit data) w order).
Proof.
  induction order as [|c order IH]; intros w Hnd Hopen; [done|].
  apply NoDup_cons in Hnd as [Hnotin Hnd].
  cbn [fanout foldl]. unfold bind at 1.
  rewrite select_send_open by (apply Hopen; left).
  apply IH; [done|]. intros c' Hc'.
  unfold is_closed. rewrite visit_other by (intros ->; done).
  apply Hopen. by right.
Qed.

Lemma foldl_visit_other data order : ∀ w c,
  c ∉ order → get_client c (foldl (visit data) w order) = get_client c w.
Proof.
  induction order as [|c0 order IH]; intros w c Hc; [done|].
  apply not_elem_of_cons in Hc as [Hne Hc]. cbn [foldl].
  rewrite IH by done. by apply visit_other.
Qed.

Lemma foldl_visit_topics data order : ∀ w,
  Hub.topics (hub (foldl (visit data) w order)) = Hub.topics (hub w).
Proof.
  induction order as [|c order IH]; intros w; [done|].
  cbn [foldl]. rewrite IH. apply visit_topics.
Qed.

Lemma foldl_visit_joined data order : ∀ w c,
  joined c (foldl (visit data) w order) = joined c w.
Proof.
  induction order as [|c0 order IH]; intros w c; [done|].
  cbn [foldl]. rewrite IH. apply visit_joined.
Qed.

Lemma has_room_other data c c' w :
  c ≠ c' → has_room c' (visit data w c) = has_room c' w.
Proof. intros Hne. unfold has_room, queue. by rewrite visit_other. Qed.

Lemma foldl_visit_live data order : ∀ w c,
  NoDup order →
  c ∈ live (foldl (visit data) w order) ↔
  c ∈ live w ∧ ¬ (c ∈ order ∧ has_room c w = false).
Proof.
  induction order as [|c0 order IH]; intros w c Hnd.
  - cbn [foldl]. rewrite elem_of_nil. naive_solver.
  - apply NoDup_cons in Hnd as [Hnotin Hnd]. cbn [foldl].
    rewrite IH by done. rewrite visit_live, elem_of_cons.
    destruct (decide (c = c0)) as [->|Hne].
    + naive_solver.
    + rewrite has_room_other by done. naive_solver.
Qed.

Lemma foldl_visit_member data order : ∀ w c,
  NoDup order → c ∈ order →
  if has_room c w
  then queue c (foldl (visit data) w order) = queue c w ++ [data] ∧
       is_closed c (foldl (visit data) w order) = is_closed c w
  else queue c (foldl (visit data) w order) = queue c w ∧
       is_closed c (foldl (visit data) w order) = true.
Proof.
  induction order as [|c0 order IH]; intros w c Hnd Hc.
  - by apply elem_of_nil in Hc.
  - apply NoDup_cons in Hnd as [Hnotin Hnd]. cbn [foldl].
    apply elem_of_cons in Hc as [->|Hc].
    + unfold queue, is_closed. rewrite foldl_visit_other by done.
      destruct (has_room c0 w) eqn:Hroom.
      * by destruct (visit_room data c0 w Hroom) as (? & ? & _).
      * by destruct (visit_full data c0 w Hroom) as (? & ? & _).
    + assert (c0 ≠ c) as Hne by (intros ->; done).
      specialize (IH (visit data w c0) c Hnd Hc).
      rewrite has_room_other in IH by done.
      unfold queue, is_closed in *. by rewrite visit_other in IH.
Qed.

(** Whatever the channel states and the order, one visit either panics on a
    closed channel, leaving the world as it is, or is [visit]. *)
Lemma select_send_cases data c w :
  (is_closed c w = true ∧
   select_send c data (chan_close c >> delete_client c) w
   = Panicked SendOnClosedChannel w) ∨
  (is_closed c w = false ∧
   select_send c data (chan_close c >> delete_client c) w = Ok tt (visit data w c)).
Proof.
  destruct (is_closed c w) eqn:Hc.
  - left. split; [done|]. unfold select_send. by rewrite Hc.
  - right. split; [done|]. by apply select_send_open.
Qed.

Lemma visit_queue data c w c' :
  ∃ added, queue c' (visit data w c) = queue c' w ++ added ∧ Forall (eq data) added.
Proof.
  destruct (decide (c = c')) as [<-|Hne].
  - destruct (has_room c w) eqn:Hroom.
    + destruct (visit_room data c w Hroom) as (Hq & _ & _).
      exists [data]. split; [done|]. by constructor.
    + destruct (visit_full data c w Hroom) as (Hq & _ & _).
      exists []. rewrite app_nil_r. by split.
  - exists []. rewrite app_nil_r. split; [|done].
    unfold queue. by rewrite visit_other.
Qed.

Lemma fanout_queue data order : ∀ w c,
  ∃ added, queue c (world_of (fanout data order w)) = queue c w ++ added ∧
           Forall (eq data) added.
Proof.
  induction order as [|c0 order IH]; intros w c.
  - exists []. rewrite app_nil_r. by split.
  - cbn [fanout]. unfold bind at 1.
    destruct (select_send_cases data c0 w) as [[_ ->]|[_ ->]].
    + exists []. rewrite app_nil_r. by split.
    + destruct (IH (visit data w c0) c) as (a2 & -> & Ha2).
      destruct (visit_queue data c0 w c) as (a1 & -> & Ha1).
      exists (a1 ++ a2). rewrite app_assoc. split; [done|]. by apply Forall_app.
Qed.

Section Publish.

Variable marshal : OutgoingMessage.t → option Frame.

(** What a publish does when no subscriber's channel is closed: it returns,
    the topic map is untouched, a subscriber with room gets exactly the
    frame, and a subscriber without room is closed and leaves the live
    set. *)
Lemma Broadcast_open order topic event payload data w :
  order ≡ₚ elements (subscribers topic w) →
  marshal (published topic event payload) = Some data →
  (∀ c, c ∈ subscribers topic w → is_closed c w = false) →
  ∃ w', Broadcast marshal order topic event payload w = Ok tt w' ∧
        Hub.topics (hub w') = Hub.topics (hub w) ∧
        (∀ c, joined c w' = joined c w) ∧
        (∀ c, c ∉ subscribers topic w → get_client c w' = get_client c w) ∧
        (∀ c, c ∈ live w' ↔
              c ∈ live w ∧ ¬ (c ∈ subscribers topic w ∧ has_room c w = false)) ∧
        (∀ c, c ∈ subscribers topic w →
              if has_room c w
              then queue c w' = queue c w ++ [data] ∧ is_closed c w' = false
              else queue c w' = queue c w ∧ is_closed c w' = true).
Proof.
  intros Hperm Hdata Hopen.
  assert (NoDup order) as Hnd by (rewrite Hperm; apply NoDup_elements).
  assert (∀ c, c ∈ order ↔ c ∈ subscribers topic w) as Hmem
    by (intros c; rewrite Hperm; apply elem_of_elements).
  unfold Broadcast, Run, Run_broadcast; cbn.
  rewrite Hdata.
  destruct (Hub.topics (hub w) !! topic) as [clients|] eqn:Htopic.
  - exists (foldl (visit data) w order). split.
    { apply fanout_open; [done|]. intros c Hc. apply Hopen. by apply Hmem. }
    split; [apply foldl_visit_topics|].
    split; [intros c; apply foldl_visit_joined|].
    split. { intros c Hc. apply foldl_visit_other. by rewrite Hmem. }
    split. { intros c. rewrite foldl_visit_live by done. by rewrite Hmem. }
    intros c Hc.
    pose proof (foldl_visit_member data order w c Hnd (proj2 (Hmem c) Hc)) as H.
    destruct (has_room c w); [|done].
    destruct H as [? ->]. split; [done|]. by apply Hopen.
  - assert (subscribers topic w = ∅) as Hempty
      by (unfold subscribers; by rewrite Htopic).
    exists w. split; [done|]. rewrite Hempty.
    repeat split; try done; try set_solver.
Qed.

(** A subscriber whose channel is open and full is closed and deleted from
the live set by the publish, and is still subscribed afterwards. *)
Lemma Broadcast_evicts_in_place order topic event payload data w b :
  order ≡ₚ elements (subscribers topic w) →
  marshal (published topic event payload) = Some data →
  (∀ c, c ∈ subscribers topic w → is_closed c w = false) →
  b ∈ subscribers topic w →
  has_room b w = false →
  ∃ w', Broadcast marshal order topic event payload w = Ok tt w' ∧
        is_closed b w' = true ∧
        (b ∉ live w') ∧
        b ∈ subscribers topic w' ∧
        (∀ c, c ∈ subscribers topic w → has_room c w = true →
              queue c w' = queue c w ++ [data]).
Proof.
  intros Hperm Hdata Hopen Hb Hfull.
  destruct (Broadcast_open order topic event payload data w Hperm Hdata Hopen)
    as (w' & Hrun & Htopics & _ & _ & Hlive & Hsubs).
  exists w'. split; [done|]. split; [|split; [|split]].
  - specialize (Hsubs b Hb). rewrite Hfull in Hsubs. tauto.
  - rewrite Hlive. tauto.
  - unfold subscribers. by rewrite Htopics.
  - intros c Hc Hroom. specialize (Hsubs c Hc). rewrite Hroom in Hsubs. tauto.
Qed.

End Publish.

(** ** Fan-out *)

(** Delivery when nothing is in the way.  When every subscriber of [topic]
    has an open channel with room,
    [Broadcast topic event payload] returns and puts exactly one frame, the
    serialization of the envelope with that topic, event and payload, at the
    end of each subscriber's queue; the queue of every session that is not
    subscribed to [topic] is unchanged, and so is the registry. *)
Theorem publish_delivers_once
    (marshal : OutgoingMessage.t → option Frame)
    (order : list ptr) (topic event : string) (payload : Value)
    (data : Frame) (w : World) :
  order ≡ₚ elements (subscribers topic w) →
  marshal (OutgoingMessage.mk topic event payload "") = Some data →
  (∀ c, c ∈ subscribers topic w →
        is_closed c w = false ∧ length (queue c w) < sendCap) →
  ∃ w', Broadcast marshal order topic event payload w = Ok tt w' ∧
        (∀ c, c ∈ subscribers topic w → queue c w' = queue c w ++ [data]) ∧
        (∀ c, c ∉ subscribers topic w → queue c w' = queue c w) ∧
        hub w' = hub w.
Proof.
  intros Hperm Hdata Hready.
  destruct (Broadcast_open marshal order topic event payload data w Hperm Hdata)
    as (w' & Hrun & Htopics & _ & Hother & Hlive & Hsubs).
  { intros c Hc. by apply Hready. }
  assert (∀ c, c ∈ subscribers topic w → has_room c w = true) as Hroom.
  { intros c Hc. apply bool_decide_eq_true. by apply Hready. }
  exists w'. split; [done|]. split; [|split].
  - intros c Hc. specialize (Hsubs c Hc). rewrite (Hroom c Hc) in Hsubs. tauto.
  - intros c Hc. unfold queue. by rewrite Hother.
  - destruct (hub w') as [cl' tm'] eqn:Hw', (hub w) as [cl tm] eqn:Hw.
    unfold live in Hlive. rewrite Hw', Hw in Hlive.
    cbn in Htopics, Hlive. subst tm'. f_equal.
    apply set_eq. intros c. rewrite Hlive. split; [tauto|].
    intros Hc. split; [done|]. intros [Hs Hfull].
    rewrite (Hroom c Hs) in Hfull. done.
Qed.

Lemma publish_delivers_once_witness :
  ∃ w', Broadcast plain_marshal (elements (subscribers room two_joined_world))
          room "postgres_changes" (VMap []) two_joined_world = Ok tt w' ∧
        (∀ c, c ∈ subscribers room two_joined_world →
              queue c w' = queue c two_joined_world
                           ++ [String.list_byte_of_string "realtime:messages:S1|postgres_changes|"]) ∧
        (∀ c, c ∉ subscribers room two_joined_world →
              queue c w' = queue c two_joined_world) ∧
        hub w' = hub two_joined_world.
Proof.
  apply (publish_delivers_once plain_marshal
           (elements (subscribers room two_joined_world))
           room "postgres_changes" (VMap [])).
  - reflexivity.
  - reflexivity.
  - apply (bool_decide_unpack
             (set_Forall (λ c, is_closed c two_joined_world = false ∧
                               length (queue c two_joined_world) < sendCap)
                         (subscribers room two_joined_world))).
    vm_compute. exact I.
Defined.

(** C9. When the envelope of a publish does not serialize, [Broadcast]
    returns with the world exactly as it was: no queue gets a frame, and the
    live set and every subscriber set are unchanged. *)
Theorem publish_marshal_failure_is_noop
    (marshal : OutgoingMessage.t → option Frame)
    (order : list ptr) (topic event : string) (payload : Value) (w : World) :
  marshal (OutgoingMessage.mk topic event payload "") = None →
  Broadcast marshal order topic event payload w = Ok tt w.
Proof.
  intros Hfail. unfold Broadcast, Run, Run_broadcast, published; cbn.
  rewrite Hfail. by destruct (Hub.topics (hub w) !! topic).
Qed.

Lemma publish_marshal_failure_is_noop_witness :
  Broadcast plain_marshal [1; 2] room "postgres_changes" (VOpaque 0) two_joined_world
  = Ok tt two_joined_world.
Proof.
  apply (publish_marshal_failure_is_noop plain_marshal [1; 2] room
           "postgres_changes" (VOpaque 0) two_joined_world).
  reflexivity.
Defined.

(** C10. In one fan-out the envelope is serialized once: whatever the
    channel states and the visiting order, and whether the loop runs to its
    end or panics on the way, every queue ends as it was followed by
    frames that all are that one serialization, so two subscribers never
    receive different bytes. *)
Theorem publish_same_bytes
    (marshal : OutgoingMessage.t → option Frame)
    (order : list ptr) (message : BroadcastMessage.t) (w : World) (c1 c2 : ptr) :
  ∃ added1 added2,
    queue c1 (world_of (Run_broadcast marshal order message w)) = queue c1 w ++ added1 ∧
    queue c2 (world_of (Run_broadcast marshal order message w)) = queue c2 w ++ added2 ∧
    ∀ f1 f2, f1 ∈ added1 → f2 ∈ added2 →
             f1 = f2 ∧ marshal (BroadcastMessage.Msg message) = Some f1.
Proof.
  unfold Run_broadcast.
  destruct (Hub.topics (hub w) !! BroadcastMessage.Topic message) as [clients|];
    [destruct (marshal (BroadcastMessage.Msg message)) as [data|]|].
  - destruct (fanout_queue data order w c1) as (a1 & H1 & F1).
    destruct (fanout_queue data order w c2) as (a2 & H2 & F2).
    exists a1, a2. split; [done|]. split; [done|].
    intros f1 f2 Hf1 Hf2.
    rewrite Forall_forall in F1, F2.
    rewrite <- (F1 f1 Hf1), <- (F2 f2 Hf2). done.
  - exists [], []. rewrite !app_nil_r. split; [done|]. split; [done|].
    intros f1 f2 Hf1. by apply elem_of_nil in Hf1.
  - exists [], []. rewrite !app_nil_r. split; [done|]. split; [done|].
    intros f1 f2 Hf1. by apply elem_of_nil in Hf1.
Qed.

(** ** Calls that keep a property of the world *)

Lemma preserves_ret {A} (P : World → Prop) (a : A) : preserves P (ret a).
Proof. by intros w Hw. Qed.

Lemma preserves_bind {A B} (P : World → Prop) (m : M A) (k : A → M B) :
  preserves P m → (∀ a, preserves P (k a)) → preserves P (bind m k).
Proof.
  intros Hm Hk w Hw. specialize (Hm w Hw). unfold bind.
  destruct (m w) as [a w'|p w'|w']; cbn in *; [by apply Hk|done|done].
Qed.

Lemma preserves_modify (P : World → Prop) (f : World → World) :
  (∀ w, P w → P (f w)) → preserves P (modify f).
Proof. intros Hf w Hw. by apply Hf. Qed.

Section HubOnly.

(** Properties that only read the hub's topic map are kept by every
    operation on a channel. *)
Variable P : World → Prop.
Hypothesis P_topics :
  ∀ w w', Hub.topics (hub w') = Hub.topics (hub w) → P w → P w'.

Lemma keeps_chan_send c data : preserves P (chan_send c data).
Proof.
  intros w Hw. unfold chan_send.
  destruct (is_closed c w); [done|]. destruct (has_room c w); [|done].
  by apply (P_topics w).
Qed.

Lemma keeps_chan_close c : preserves P (chan_close c).
Proof.
  intros w Hw. unfold chan_close.
  destruct (is_closed c w); [done|]. by apply (P_topics w).
Qed.

Lemma keeps_delete_client c : preserves P (delete_client c).
Proof. apply preserves_modify. intros w Hw. by apply (P_topics w). Qed.

Lemma keeps_select_send c data dflt :
  preserves P dflt → preserves P (select_send c data dflt).
Proof.
  intros Hd w Hw. unfold select_send.
  destruct (is_closed c w); [done|]. destruct (has_room c w); [|by apply Hd].
  by apply (P_topics w).
Qed.

Lemma keeps_slice_from s n : preserves P (slice_from s n).
Proof. intros w Hw. unfold slice_from. by case_bool_decide. Qed.

Lemma keeps_fanout data order : preserves P (fanout data order).
Proof.
  induction order as [|c order IH]; [apply preserves_ret|].
  cbn [fanout]. apply preserves_bind; [|done].
  apply keeps_select_send, preserves_bind; [apply keeps_chan_close|].
  intros _. apply keeps_delete_client.
Qed.

Lemma keeps_sendJSON marshal c v : preserves P (sendJSON marshal c v).
Proof.
  unfold sendJSON. destruct (marshal v); [apply keeps_chan_send|apply preserves_ret].
Qed.

Lemma keeps_Run_register c : preserves P (Run_register c).
Proof. apply preserves_modify. intros w Hw. by apply (P_topics w). Qed.

Lemma keeps_Run_broadcast marshal order message :
  preserves P (Run_broadcast marshal order message).
Proof.
  intros w Hw. unfold Run_broadcast.
  destruct (Hub.topics (hub w) !! BroadcastMessage.Topic message); [|done].
  destruct (marshal (BroadcastMessage.Msg message)); [|done].
  by apply keeps_fanout.
Qed.

End HubOnly.

(** ** No empty topics *)

Lemma no_empty_topics_hub w w' :
  Hub.topics (hub w') = Hub.topics (hub w) → no_empty_topics w → no_empty_topics w'.
Proof. unfold no_empty_topics. by intros ->. Qed.

Lemma drop_subscriber_nonempty c tm topic :
  (∀ t s, tm !! t = Some s → s ≠ ∅) →
  ∀ t s, drop_subscriber c tm topic !! t = Some s → s ≠ ∅.
Proof.
  intros Htm t s. unfold drop_subscriber.
  destruct (tm !! topic) as [clients|] eqn:Htopic; [|apply Htm].
  case_decide as Hsize.
  - destruct (decide (topic = t)) as [->|Hne].
    + by rewrite lookup_delete_eq.
    + rewrite lookup_delete_ne, lookup_insert_ne by done. apply Htm.
  - destruct (decide (topic = t)) as [->|Hne].
    + rewrite lookup_insert_eq. intros [= <-] Hempty.
      apply Hsize. rewrite Hempty. apply size_empty.
    + rewrite lookup_insert_ne by done. apply Htm.
Qed.

Lemma foldl_drop_subscriber_nonempty c ts : ∀ tm,
  (∀ t s, tm !! t = Some s → s ≠ ∅) →
  ∀ t s, foldl (drop_subscriber c) tm ts !! t = Some s → s ≠ ∅.
Proof.
  induction ts as [|t0 ts IH]; intros tm Htm; [done|].
  cbn [foldl]. apply IH. by apply drop_subscriber_nonempty.
Qed.

Lemma Join_topics c topic w :
  Hub.topics (hub (Join c topic w))
  = <[topic := {[c]} ∪ subscribers topic w]> (Hub.topics (hub w)).
Proof.
  unfold Join, subscribers; cbn.
  destruct (Hub.topics (hub w) !! topic) as [clients|] eqn:Htopic; cbn.
  - apply map_eq. intros t. destruct (decide (topic = t)) as [->|Hne].
    + by rewrite lookup_alter_eq, lookup_insert_eq, Htopic.
    + by rewrite lookup_alter_ne, lookup_insert_ne.
  - apply map_eq. intros t. destruct (decide (topic = t)) as [->|Hne].
    + by rewrite lookup_alter_eq, !lookup_insert_eq.
    + by rewrite lookup_alter_ne, !lookup_insert_ne.
Qed.

Lemma Join_no_empty_topics c topic w :
  no_empty_topics w → no_empty_topics (Join c topic w).
Proof.
  intros Hw t s. rewrite Join_topics.
  destruct (decide (topic = t)) as [->|Hne].
  - rewrite lookup_insert_eq. intros [= <-]. set_solver.
  - rewrite lookup_insert_ne by done. apply Hw.
Qed.

Lemma Leave_no_empty_topics c topic w :
  no_empty_topics w → no_empty_topics (Leave c topic w).
Proof. intros Hw. unfold no_empty_topics, Leave; cbn. by apply drop_subscriber_nonempty. Qed.

Lemma Run_unregister_no_empty_topics c : preserves no_empty_topics (Run_unregister c).
Proof.
  intros w Hw. unfold Run_unregister. case_decide as Hin; [clear Hin|done].
  revert w Hw. apply preserves_bind; [apply preserves_bind|].
  - by apply keeps_delete_client, no_empty_topics_hub.
  - intros _. by apply keeps_chan_close, no_empty_topics_hub.
  - intros _. apply preserves_modify. intros w Hw.
    unfold no_empty_topics; cbn. by apply foldl_drop_subscriber_nonempty.
Qed.

Lemma handleMessage_no_empty_topics marshal c msg :
  preserves no_empty_topics (handleMessage marshal c msg).
Proof.
  pose proof no_empty_topics_hub as Hhub.
  unfold handleMessage. repeat case_decide.
  - apply preserves_bind; [apply preserves_modify, Join_no_empty_topics|].
    intros _. apply preserves_bind; [by apply keeps_slice_from|].
    intros sessionID. apply preserves_bind; [by apply keeps_sendJSON|].
    intros _. apply preserves_bind; [by apply keeps_slice_from|].
    intros channel. by apply keeps_sendJSON.
  - by apply keeps_sendJSON.
  - apply preserves_bind; [apply preserves_modify, Leave_no_empty_topics|].
    intros _. by apply keeps_sendJSON.
  - apply preserves_ret.
Qed.

Lemma exec_no_empty_topics marshal o : preserves no_empty_topics (exec marshal o).
Proof.
  pose proof no_empty_topics_hub as Hhub.
  destruct o as [c|c|c msg|order topic event payload|c v|c]; cbn [exec Run].
  - apply preserves_bind; [|intros _; by apply keeps_Run_register].
    apply preserves_modify. intros w Hw. by apply (Hhub w).
  - apply Run_unregister_no_empty_topics.
  - apply handleMessage_no_empty_topics.
  - unfold Broadcast, Run. by apply keeps_Run_broadcast.
  - by apply keeps_sendJSON.
  - apply preserves_modify. intros w Hw. by apply (Hhub w).
Qed.

(** C4. In every world reachable from the empty hub by [ServeWs], the hub's
    unregister turn, the dispatch of inbound envelopes (join, leave,
    heartbeat and the others), publishes and the draining of queues, every
    topic of the topic map has a non-empty subscriber set. *)
Theorem reachable_no_empty_topics
    (marshal : OutgoingMessage.t → option Frame) (w : World) :
  reachable marshal w →
  ∀ topic clients, Hub.topics (hub w) !! topic = Some clients → clients ≠ ∅.
Proof.
  induction 1 as [|w o _ IH _].
  - intros topic clients. cbn. by rewrite lookup_empty.
  - by apply exec_no_empty_topics.
Qed.

(** A valid trace leads from a reachable world to a reachable world. *)
Lemma reachable_run marshal os : ∀ w,
  reachable marshal w → valid_trace marshal os w = true →
  reachable marshal (world_of (run marshal os w)).
Proof.
  induction os as [|o os IH]; intros w Hw Hvalid; [done|].
  cbn [valid_trace] in Hvalid. apply andb_true_iff in Hvalid as [Ho Hos].
  apply bool_decide_eq_true in Ho.
  pose proof (reachable_step marshal w o Hw Ho) as Hstep.
  cbn [run]. unfold bind.
  destruct (exec marshal o w) as [[] w'|p w'|w']; cbn in *; [by apply IH|done|done].
Qed.

Lemma reachable_two_joined : reachable plain_marshal two_joined_world.
Proof. apply reachable_run; [apply reachable_init|]. vm_compute. reflexivity. Qed.

Lemma reachable_no_empty_topics_witness :
  Hub.topics (hub two_joined_world) !! room = Some (subscribers room two_joined_world) ∧
  subscribers room two_joined_world ≠ ∅.
Proof.
  assert (Hub.topics (hub two_joined_world) !! room
          = Some (subscribers room two_joined_world)) as Hlookup
    by (vm_compute; reflexivity).
  split; [exact Hlookup|].
  exact (reachable_no_empty_topics plain_marshal two_joined_world
           reachable_two_joined room _ Hlookup).
Defined.

(** ** Join and leave *)

Lemma drop_subscriber_lookup c tm topic :
  drop_subscriber c tm topic !! topic
  = match tm !! topic with
    | Some clients =>
        if decide (size (clients ∖ {[c]}) = 0) then None else Some (clients ∖ {[c]})
    | None => None
    end.
Proof.
  unfold drop_subscriber. destruct (tm !! topic) as [clients|] eqn:Htopic; [|done].
  case_decide; [by rewrite lookup_delete_eq|by rewrite lookup_insert_eq].
Qed.

Lemma Leave_topics c topic w :
  Hub.topics (hub (Leave c topic w)) = drop_subscriber c (Hub.topics (hub w)) topic.
Proof. reflexivity. Qed.

(** C6. After [Join c topic] followed by [Leave c topic], [topic] is not in
    [c]'s joined set and [c] is not in [topic]'s subscriber set; and when
    [topic] had no subscriber other than [c] before, the topic map has no
    entry for [topic] afterwards. *)
Theorem join_then_leave (c : ptr) (topic : string) (w : World) :
  (topic ∉ joined c (Leave c topic (Join c topic w))) ∧
  (c ∉ subscribers topic (Leave c topic (Join c topic w))) ∧
  (subscribers topic w ⊆ {[c]} →
   Hub.topics (hub (Leave c topic (Join c topic w))) !! topic = None).
Proof.
  assert (Hub.topics (hub (Leave c topic (Join c topic w))) !! topic
          = if decide (size (({[c]} ∪ subscribers topic w) ∖ {[c]}) = 0)
            then None else Some (({[c]} ∪ subscribers topic w) ∖ {[c]})) as Hlookup.
  { rewrite Leave_topics, drop_subscriber_lookup, Join_topics.
    by rewrite lookup_insert_eq. }
  split; [|split].
  - unfold joined, Leave. rewrite get_client_set_eq. cbn. set_solver.
  - unfold subscribers at 1. rewrite Hlookup. case_decide; cbn; set_solver.
  - intros Honly. rewrite Hlookup. case_decide as Hsize; [done|].
    exfalso. apply Hsize. apply size_empty_iff. set_solver.
Qed.

Lemma join_then_leave_witness :
  (room ∉ joined 1 (Leave 1 room (Join 1 room one_session_world))) ∧
  (1 ∉ subscribers room (Leave 1 room (Join 1 room one_session_world))) ∧
  Hub.topics (hub (Leave 1 room (Join 1 room one_session_world))) !! room = None.
Proof.
  destruct (join_then_leave 1 room one_session_world) as (Hj & Hs & Hgone).
  split; [exact Hj|]. split; [exact Hs|].
  apply Hgone. apply (bool_decide_unpack _). vm_compute. exact I.
Defined.

(** ** Protocol dispatch *)

(** C7. For an inbound envelope with event ["heartbeat"] and correlation
    token [R], whatever its topic, dispatched on a session whose outbound
    channel is open and has room: the dispatch returns having put exactly
    one frame on that session's queue, the serialization of a reply on the
    control topic ["phoenix"] with status ["ok"] and token [R]; the
    registry, every joined set and every other session are unchanged. *)
Theorem heartbeat_echo
    (marshal : OutgoingMessage.t → option Frame)
    (c : ptr) (msg : IncomingMessage.t) (data : Frame) (w : World) :
  IncomingMessage.Event msg = "heartbeat" →
  marshal (heartbeat_reply (IncomingMessage.Ref msg)) = Some data →
  is_closed c w = false →
  length (queue c w) < sendCap →
  ∃ reply w',
    OutgoingMessage.Topic reply = "phoenix" ∧
    OutgoingMessage.Ref reply = IncomingMessage.Ref msg ∧
    field "status" (OutgoingMessage.Payload reply) = Some (VString "ok") ∧
    marshal reply = Some data ∧
    handleMessage marshal c msg w = Ok tt w' ∧
    queue c w' = queue c w ++ [data] ∧
    is_closed c w' = false ∧
    hub w' = hub w ∧
    (∀ c', joined c' w' = joined c' w) ∧
    (∀ c', c' ≠ c → get_client c' w' = get_client c' w).
Proof.
  intros Hev Hdata Hopen Hroom.
  exists (heartbeat_reply (IncomingMessage.Ref msg)), (enqueue c data w).
  repeat split; try done.
  - unfold handleMessage. rewrite Hev.
    destruct (decide ("heartbeat" = "phx_join")) as [[=]|_].
    destruct (decide ("heartbeat" = "heartbeat")) as [_|[]]; [|done].
    unfold sendJSON. rewrite Hdata. unfold chan_send. rewrite Hopen.
    unfold has_room. by rewrite bool_decide_eq_true_2.
  - unfold queue, enqueue. by rewrite get_client_set_eq.
  - unfold is_closed, enqueue. by rewrite get_client_set_eq.
  - intros c'. unfold joined, enqueue.
    destruct (decide (c = c')) as [<-|Hne];
      [by rewrite get_client_set_eq|by rewrite get_client_set_ne].
  - intros c' Hne. unfold enqueue. by rewrite get_client_set_ne.
Qed.

Lemma heartbeat_echo_witness :
  ∃ reply w',
    OutgoingMessage.Topic reply = "phoenix" ∧
    OutgoingMessage.Ref reply = "R1" ∧
    field "status" (OutgoingMessage.Payload reply) = Some (VString "ok") ∧
    plain_marshal reply = Some (String.list_byte_of_string "phoenix|phx_reply|R1") ∧
    handleMessage plain_marshal 1 (IncomingMessage.mk "anywhere" "heartbeat" [] "R1")
      two_joined_world = Ok tt w' ∧
    queue 1 w' = queue 1 two_joined_world
                 ++ [String.list_byte_of_string "phoenix|phx_reply|R1"] ∧
    is_closed 1 w' = false ∧
    hub w' = hub two_joined_world ∧
    (∀ c', joined c' w' = joined c' two_joined_world) ∧
    (∀ c', c' ≠ 1 → get_client c' w' = get_client c' two_joined_world).
Proof.
  apply (heartbeat_echo plain_marshal 1
           (IncomingMessage.mk "anywhere" "heartbeat" [] "R1")
           (String.list_byte_of_string "phoenix|phx_reply|R1") two_joined_world).
  - reflexivity.
  - reflexivity.
  - vm_compute. reflexivity.
  - apply (bool_decide_unpack _). vm_compute. exact I.
Defined.

(** ** The inbound pump *)

(** C8. A frame that does not decode is skipped: on such a frame alone the
    pump returns to reading with the world untouched (no reply, no registry
    change, no unregistration), and a stream with such a frame anywhere in
    it is processed exactly as the stream without it. *)
Theorem decode_fault_skipped
    (marshal : OutgoingMessage.t → option Frame)
    (unmarshal : Frame → option IncomingMessage.t)
    (c : ptr) (message : Frame) (pre post : list ReadResult) (w : World) :
  unmarshal message = None →
  readPump marshal unmarshal c [ReadMessage message] w = Ok Reading w ∧
  readPump marshal unmarshal c (pre ++ ReadMessage message :: post) w
  = readPump marshal unmarshal c (pre ++ post) w.
Proof.
  intros Hbad. split; [cbn; by rewrite Hbad|].
  revert w. induction pre as [|[|m] pre IH]; intros w; cbn.
  - by rewrite Hbad.
  - done.
  - destruct (unmarshal m) as [msg|]; [|apply IH].
    unfold bind. destruct (unwinding _ (handleMessage marshal c msg) w); [apply IH|done|done].
Qed.

Lemma decode_fault_skipped_witness :
  readPump plain_marshal plain_unmarshal 1 [ReadMessage []] two_joined_world
  = Ok Reading two_joined_world ∧
  readPump plain_marshal plain_unmarshal 1
    ([ReadMessage [x00]] ++ ReadMessage [] :: [ReadError]) two_joined_world
  = readPump plain_marshal plain_unmarshal 1
      ([ReadMessage [x00]] ++ [ReadError]) two_joined_world.
Proof.
  apply (decode_fault_skipped plain_marshal plain_unmarshal 1 []
           [ReadMessage [x00]] [ReadError] two_joined_world).
  reflexivity.
Defined.

(** ** Short topics *)

(** A join whose topic is shorter than ["realtime:messages:"] panics in the
    slice expression, after the registry has been mutated and before any
    reply is sent. *)
Lemma handleMessage_join_short marshal c msg w :
  IncomingMessage.Event msg = "phx_join" →
  String.length (IncomingMessage.Topic msg) < String.length "realtime:messages:" →
  handleMessage marshal c msg w
  = Panicked SliceBoundsOutOfRange (Join c (IncomingMessage.Topic msg) w).
Proof.
  intros Hev Hshort. unfold handleMessage. rewrite Hev.
  destruct (decide ("phx_join" = "phx_join")) as [_|[]]; [|done].
  unfold bind, modify, slice_from.
  rewrite bool_decide_eq_false_2; [done|lia].
Qed.

(** C3. The join envelope with topic ["x"] on a freshly served session does
    not fail safely: [handleMessage] panics with a slice bound out of range,
    no filter key is derived and no reply is queued, and the session has
    already been subscribed to ["x"]. *)
Theorem join_short_topic_panics :
  handleMessage plain_marshal 1 (join_msg "x") one_session_world
  = Panicked SliceBoundsOutOfRange (Join 1 "x" one_session_world) ∧
  queue 1 (Join 1 "x" one_session_world) = [] ∧
  1 ∈ subscribers "x" (Join 1 "x" one_session_world).
Proof.
  split; [|split].
  - apply handleMessage_join_short; [reflexivity|cbn; lia].
  - vm_compute. reflexivity.
  - by_evaluation.
Qed.

(** ** Unregistration and eviction *)

Lemma drop_subscriber_lookup_ne c tm topic t :
  topic ≠ t → drop_subscriber c tm topic !! t = tm !! t.
Proof.
  intros Hne. unfold drop_subscriber.
  destruct (tm !! topic) as [clients|]; [|done].
  case_decide; [rewrite lookup_delete_ne by done|]; by rewrite lookup_insert_ne.
Qed.

Lemma drop_subscriber_default c tm topic t :
  default ∅ (drop_subscriber c tm topic !! t)
  = if decide (topic = t) then default ∅ (tm !! t) ∖ {[c]} else default ∅ (tm !! t).
Proof.
  case_decide as Heq.
  - subst t. rewrite drop_subscriber_lookup.
    destruct (tm !! topic) as [clients|]; cbn; [|set_solver].
    case_decide as Hsize; [|done]. cbn.
    apply size_empty_iff in Hsize. by rewrite leibniz_equiv_iff in Hsize.
  - by rewrite drop_subscriber_lookup_ne.
Qed.

(** Ranging over the joined topics removes the client from exactly those
    topics, in whatever order they come. *)
Lemma foldl_drop_subscriber_default c ts : ∀ tm t,
  default ∅ (foldl (drop_subscriber c) tm ts !! t)
  = if decide (t ∈ ts) then default ∅ (tm !! t) ∖ {[c]} else default ∅ (tm !! t).
Proof.
  induction ts as [|t0 ts IH]; intros tm t; cbn [foldl].
  - rewrite decide_False; [done|]. apply not_elem_of_nil.
  - rewrite IH, drop_subscriber_default.
    destruct (decide (t0 = t)) as [->|Hne].
    + rewrite (decide_True (P := t ∈ t :: ts)) by left.
      case_decide; set_solver.
    + destruct (decide (t ∈ ts)) as [Hin|Hnotin].
      * rewrite decide_True; [done|by right].
      * rewrite decide_False; [done|]. by apply not_elem_of_cons.
Qed.

Lemma subscribers_unregistered c h w t :
  subscribers t
    (set_hub (Hub.mk h (foldl (drop_subscriber c) (Hub.topics (hub w))
                          (elements (joined c w)))) w)
  = if decide (t ∈ joined c w) then subscribers t w ∖ {[c]} else subscribers t w.
Proof.
  unfold subscribers at 1; cbn. rewrite foldl_drop_subscriber_default.
  destruct (decide (t ∈ joined c w)) as [Hin|Hnotin].
  - rewrite decide_True; [done|]. by apply elem_of_elements.
  - rewrite decide_False; [done|]. by rewrite elem_of_elements.
Qed.

(** The unregister turn of [Hub.Run] on a live session with an open channel
    whose joined set covers its subscriptions: the channel is closed and the
    session is gone from the live set and from every subscriber set. *)
Lemma Run_unregister_clears c w :
  c ∈ live w →
  is_closed c w = false →
  (∀ t, c ∈ subscribers t w → t ∈ joined c w) →
  ∃ w', Run_unregister c w = Ok tt w' ∧
        is_closed c w' = true ∧
        (c ∉ live w') ∧
        ∀ t, c ∉ subscribers t w'.
Proof.
  intros Hlive Hopen Hcover. unfold Run_unregister.
  rewrite decide_True by done.
  unfold bind, delete_client, modify, chan_close.
  change (is_closed c (set_hub _ w)) with (is_closed c w). rewrite Hopen.
  eexists. split; [reflexivity|]. split; [|split].
  - unfold is_closed, mark_closed. rewrite get_client_set_hub.
    by rewrite get_client_set_eq.
  - unfold live; cbn. set_solver.
  - intros t.
    rewrite (subscribers_unregistered c _ (mark_closed c _) t).
    assert (∀ w0, joined c (mark_closed c w0) = joined c w0) as Hj
      by (intros w0; unfold joined, mark_closed; by rewrite get_client_set_eq).
    rewrite Hj. change (joined c (set_hub ?h w)) with (joined c w).
    change (subscribers t (mark_closed c (set_hub ?h w))) with (subscribers t w).
    specialize (Hcover t). case_decide; set_solver.
Qed.

(** ** The registry stays well formed *)

Lemma allocated_set_client c c' r w :
  allocated c' (set_client c r w) ↔ c = c' ∨ allocated c' w.
Proof.
  unfold allocated, set_client; cbn.
  destruct (decide (c = c')) as [->|Hne].
  - rewrite lookup_insert_eq. naive_solver.
  - rewrite lookup_insert_ne by done. naive_solver.
Qed.

(** Replacing the record of [c]: fine when a live [c] keeps an open channel
    and the new joined set still covers the subscriptions of [c]. *)
Lemma wf_set_client c r w :
  registry_wf w →
  (c ∈ live w → closed (Client.send r) = false) →
  (∀ t, c ∈ subscribers t w → t ∈ Client.topics r) →
  registry_wf (set_client c r w).
Proof.
  intros [Hla Hsa Hlo Hsj] Hopen Hcover. split.
  - intros c' Hc'. apply allocated_set_client. right. by apply Hla.
  - intros c' t Hc'. apply allocated_set_client. right. by apply (Hsa c' t).
  - intros c' Hc'. unfold is_closed.
    destruct (decide (c = c')) as [<-|Hne].
    + rewrite get_client_set_eq. by apply Hopen.
    + rewrite get_client_set_ne by done. by apply Hlo.
  - intros c' t Hc'. unfold joined.
    destruct (decide (c = c')) as [<-|Hne].
    + rewrite get_client_set_eq. by apply Hcover.
    + rewrite get_client_set_ne by done. by apply Hsj.
Qed.

(** Shrinking the hub's maps. *)
Lemma wf_set_hub h w :
  registry_wf w →
  Hub.clients h ⊆ live w →
  (∀ t, default ∅ (Hub.topics h !! t) ⊆ subscribers t w) →
  registry_wf (set_hub h w).
Proof.
  intros [Hla Hsa Hlo Hsj] Hlive Hsubs. split.
  - intros c Hc. apply Hla. by apply Hlive.
  - intros c t Hc. apply (Hsa c t). by apply Hsubs.
  - intros c Hc. apply Hlo. by apply Hlive.
  - intros c t Hc. apply (Hsj c t). by apply Hsubs.
Qed.

Lemma wf_delete_client c w :
  registry_wf w →
  registry_wf (set_hub (Hub.mk (Hub.clients (hub w) ∖ {[c]}) (Hub.topics (hub w))) w).
Proof. intros Hw. apply wf_set_hub; [done|set_solver|done]. Qed.

Lemma wf_enqueue c data w : registry_wf w → registry_wf (enqueue c data w).
Proof.
  intros Hw. apply wf_set_client; [done| |]; cbn.
  - apply (wf_live_open w Hw).
  - intros t. apply (wf_sub_joined w Hw).
Qed.

Lemma wf_recv c w : registry_wf w → registry_wf (recv c w).
Proof.
  intros Hw. apply wf_set_client; [done| |]; cbn.
  - apply (wf_live_open w Hw).
  - intros t. apply (wf_sub_joined w Hw).
Qed.

Lemma wf_mark_closed c w : registry_wf w → c ∉ live w → registry_wf (mark_closed c w).
Proof.
  intros Hw Hdead. apply wf_set_client; [done|done|]; cbn.
  intros t. apply (wf_sub_joined w Hw).
Qed.

Lemma wf_evict c w : registry_wf w → registry_wf (evict c w).
Proof.
  intros Hw.
  change (evict c w)
    with (mark_closed c
            (set_hub (Hub.mk (Hub.clients (hub w) ∖ {[c]}) (Hub.topics (hub w))) w)).
  apply wf_mark_closed; [by apply wf_delete_client|].
  unfold live; cbn. set_solver.
Qed.

Lemma wf_visit data c w : registry_wf w → registry_wf (visit data w c).
Proof.
  intros Hw. unfold visit. destruct (has_room c w); [by apply wf_enqueue|by apply wf_evict].
Qed.

Lemma subscribers_Join c topic w t :
  subscribers t (Join c topic w)
  = if decide (topic = t) then {[c]} ∪ subscribers t w else subscribers t w.
Proof.
  unfold subscribers at 1. rewrite Join_topics.
  case_decide as Heq.
  - subst t. by rewrite lookup_insert_eq.
  - by rewrite lookup_insert_ne.
Qed.

Lemma subscribers_Leave c topic w t :
  subscribers t (Leave c topic w)
  = if decide (topic = t) then subscribers t w ∖ {[c]} else subscribers t w.
Proof. unfold subscribers at 1. rewrite Leave_topics. apply drop_subscriber_default. Qed.

Lemma wf_Join c topic w : registry_wf w → registry_wf (Join c topic w).
Proof.
  intros [Hla Hsa Hlo Hsj]. split.
  - intros c' Hc'. apply allocated_set_client. right. by apply Hla.
  - intros c' t. rewrite subscribers_Join. intros Hc'.
    apply allocated_set_client.
    destruct (decide (c = c')) as [->|Hne]; [by left|right].
    apply (Hsa c' t). case_decide; set_solver.
  - intros c' Hc'. unfold is_closed, Join.
    destruct (decide (c = c')) as [<-|Hne].
    + rewrite get_client_set_eq. by apply Hlo.
    + rewrite get_client_set_ne by done. by apply Hlo.
  - intros c' t. rewrite subscribers_Join. intros Hc'. unfold joined, Join.
    destruct (decide (c = c')) as [<-|Hne].
    + rewrite get_client_set_eq; cbn. specialize (Hsj c t).
      unfold joined in Hsj. case_decide; set_solver.
    + rewrite get_client_set_ne by done.
      apply (Hsj c' t). case_decide; set_solver.
Qed.

Lemma wf_Leave c topic w : registry_wf w → registry_wf (Leave c topic w).
Proof.
  intros [Hla Hsa Hlo Hsj]. split.
  - intros c' Hc'. apply allocated_set_client. right. by apply Hla.
  - intros c' t. rewrite subscribers_Leave. intros Hc'.
    apply allocated_set_client. right.
    apply (Hsa c' t). case_decide; set_solver.
  - intros c' Hc'. unfold is_closed, Leave.
    destruct (decide (c = c')) as [<-|Hne].
    + rewrite get_client_set_eq. by apply Hlo.
    + rewrite get_client_set_ne by done. by apply Hlo.
  - intros c' t. rewrite subscribers_Leave. intros Hc'. unfold joined, Leave.
    destruct (decide (c = c')) as [<-|Hne].
    + rewrite get_client_set_eq; cbn. specialize (Hsj c t).
      unfold joined in Hsj. case_decide; set_solver.
    + rewrite get_client_set_ne by done.
      apply (Hsj c' t). case_decide; set_solver.
Qed.

Lemma wf_chan_send c data : preserves registry_wf (chan_send c data).
Proof.
  intros w Hw. unfold chan_send.
  destruct (is_closed c w); [done|]. destruct (has_room c w); [|done].
  by apply wf_enqueue.
Qed.

Lemma wf_sendJSON marshal c v : preserves registry_wf (sendJSON marshal c v).
Proof.
  unfold sendJSON. destruct (marshal v); [apply wf_chan_send|apply preserves_ret].
Qed.

Lemma wf_slice_from s n : preserves registry_wf (slice_from s n).
Proof. intros w Hw. unfold slice_from. by case_bool_decide. Qed.

Lemma wf_fanout data order : preserves registry_wf (fanout data order).
Proof.
  induction order as [|c order IH]; [apply preserves_ret|].
  cbn [fanout]. apply preserves_bind; [|done].
  intros w Hw. destruct (select_send_cases data c w) as [[_ ->]|[_ ->]]; [done|].
  by apply wf_visit.
Qed.

Lemma wf_handleMessage marshal c msg : preserves registry_wf (handleMessage marshal c msg).
Proof.
  unfold handleMessage. repeat case_decide.
  - apply preserves_bind; [apply preserves_modify, wf_Join|].
    intros _. apply preserves_bind; [apply wf_slice_from|].
    intros sessionID. apply preserves_bind; [apply wf_sendJSON|].
    intros _. apply preserves_bind; [apply wf_slice_from|].
    intros channel. apply wf_sendJSON.
  - apply wf_sendJSON.
  - apply preserves_bind; [apply preserves_modify, wf_Leave|].
    intros _. apply wf_sendJSON.
  - apply preserves_ret.
Qed.

(** On a well-formed registry the unregister turn returns: the channel of a
    live client is open, so the close cannot be a second one.  It leaves the
    client closed, out of the live set and out of every subscriber set. *)
Lemma Run_unregister_wf c w :
  registry_wf w →
  ∃ w', Run_unregister c w = Ok tt w' ∧ registry_wf w' ∧
        (c ∈ live w →
         is_closed c w' = true ∧ (c ∉ live w') ∧ ∀ t, c ∉ subscribers t w').
Proof.
  intros Hw. unfold Run_unregister.
  destruct (decide (c ∈ Hub.clients (hub w))) as [Hlive|Hdead].
  - destruct (Run_unregister_clears c w Hlive) as (w' & Hrun & Hclosed & Hout & Hgone).
    { by apply (wf_live_open w Hw). }
    { intros t. apply (wf_sub_joined w Hw). }
    unfold Run_unregister in Hrun. rewrite decide_True in Hrun by done.
    exists w'. split; [done|]. split; [|done].
    revert Hrun. unfold bind, delete_client, modify, chan_close.
    change (is_closed c (set_hub ?h w)) with (is_closed c w).
    rewrite (wf_live_open w Hw c Hlive). intros [= <-].
    apply wf_set_hub.
    + apply wf_mark_closed; [by apply wf_delete_client|]. unfold live; cbn. set_solver.
    + done.
    + intros t.
      pose proof (subscribers_unregistered c
                    (Hub.clients (hub w) ∖ {[c]})
                    (mark_closed c
                       (set_hub (Hub.mk (Hub.clients (hub w) ∖ {[c]})
                                        (Hub.topics (hub w))) w)) t) as Hsub.
      unfold subscribers at 1 in Hsub. cbn in Hsub. cbn. rewrite Hsub.
      case_decide; set_solver.
  - exists w. split; [done|]. split; [done|]. intros Hlive. by destruct Hdead.
Qed.

Lemma exec_wf marshal o w :
  registry_wf w → valid_op w o → registry_wf (world_of (exec marshal o w)).
Proof.
  intros Hw Hvalid.
  destruct o as [c|c|c msg|order topic event payload|c v|c]; cbn [exec Run].
  - cbn in Hvalid. unfold ServeWs, Run, Run_register, bind, modify; cbn.
    assert (registry_wf (set_client c new_client w)) as Hw1.
    { apply wf_set_client; [done|done|].
      intros t Hc. apply (wf_sub_alloc w Hw) in Hc.
      unfold allocated in Hc. rewrite Hvalid in Hc. by destruct Hc. }
    destruct Hw1 as [Hla Hsa Hlo Hsj]. split.
    + intros c'. unfold live; cbn. rewrite elem_of_union, elem_of_singleton.
      intros [->|Hc']; [apply allocated_set_client; by left|by apply Hla].
    + done.
    + intros c'. unfold live; cbn. rewrite elem_of_union, elem_of_singleton.
      intros [->|Hc']; [|by apply Hlo].
      unfold is_closed. by rewrite get_client_set_hub, get_client_set_eq.
    + done.
  - destruct (Run_unregister_wf c w Hw) as (w' & -> & Hw' & _). done.
  - by apply wf_handleMessage.
  - unfold Broadcast, Run, Run_broadcast; cbn.
    destruct (Hub.topics (hub w) !! topic); [|done].
    destruct (marshal (published topic event payload)); [|done].
    by apply wf_fanout.
  - by apply wf_sendJSON.
  - by apply wf_recv.
Qed.

Lemma NewHub_wf : registry_wf NewHub.
Proof. split; intros c; cbv [live subscribers NewHub hub Hub.clients Hub.topics]; set_solver. Qed.

Lemma reachable_wf marshal w : reachable marshal w → registry_wf w.
Proof.
  induction 1 as [|w o _ IH Hvalid]; [apply NewHub_wf|by apply exec_wf].
Qed.

(** ** No channel is closed twice *)

Lemma panics_only_ret {A} Q (a : A) : panics_only Q (ret a).
Proof. by intros w p w'. Qed.

Lemma panics_only_modify Q f : panics_only Q (modify f).
Proof. by intros w p w'. Qed.

Lemma panics_only_bind {A B} Q (m : M A) (k : A → M B) :
  panics_only Q m → (∀ a, panics_only Q (k a)) → panics_only Q (bind m k).
Proof.
  intros Hm Hk w p w'. unfold bind.
  destruct (m w) as [a w1|p1 w1|w1] eqn:Hmw; [apply Hk| |done].
  intros [= -> ->]. by apply (Hm w p w').
Qed.

Lemma chan_send_no_close c data : panics_only not_a_close (chan_send c data).
Proof.
  intros w p w'. unfold chan_send.
  destruct (is_closed c w); [by intros [= <- _]|]. by destruct (has_room c w).
Qed.

Lemma sendJSON_no_close marshal c v : panics_only not_a_close (sendJSON marshal c v).
Proof.
  unfold sendJSON. destruct (marshal v); [apply chan_send_no_close|apply panics_only_ret].
Qed.

Lemma slice_from_no_close s n : panics_only not_a_close (slice_from s n).
Proof. intros w p w'. unfold slice_from. case_bool_decide; [done|by intros [= <- _]]. Qed.

(** The [default] branch of the fan-out closes a channel that the [select]
    has just found open. *)
Lemma fanout_no_close data order : panics_only not_a_close (fanout data order).
Proof.
  induction order as [|c order IH]; [apply panics_only_ret|].
  cbn [fanout]. apply panics_only_bind; [|done].
  intros w p w'. destruct (select_send_cases data c w) as [[_ ->]|[_ ->]]; [|done].
  by intros [= <- _].
Qed.

Lemma handleMessage_no_close marshal c msg :
  panics_only not_a_close (handleMessage marshal c msg).
Proof.
  unfold handleMessage. repeat case_decide.
  - apply panics_only_bind; [apply panics_only_modify|].
    intros _. apply panics_only_bind; [apply slice_from_no_close|].
    intros sessionID. apply panics_only_bind; [apply sendJSON_no_close|].
    intros _. apply panics_only_bind; [apply slice_from_no_close|].
    intros channel. apply sendJSON_no_close.
  - apply sendJSON_no_close.
  - apply panics_only_bind; [apply panics_only_modify|].
    intros _. apply sendJSON_no_close.
  - apply panics_only_ret.
Qed.

(** In a reachable world no operation panics by closing a closed channel:
    whatever the order of evictions and unregistrations, a channel is closed
    at most once. *)
Lemma reachable_never_closes_twice marshal w o w' :
  reachable marshal w →
  exec marshal o w ≠ Panicked CloseOfClosedChannel w'.
Proof.
  intros Hw%reachable_wf Hpanic.
  destruct o as [c|c|c msg|order topic event payload|c v|c]; cbn [exec Run] in Hpanic.
  - done.
  - destruct (Run_unregister_wf c w Hw) as (w1 & Hrun & _). by rewrite Hrun in Hpanic.
  - by apply handleMessage_no_close in Hpanic.
  - unfold Broadcast, Run, Run_broadcast in Hpanic; cbn in Hpanic.
    destruct (Hub.topics (hub w) !! topic); [|done].
    destruct (marshal (published topic event payload)); [|done].
    by apply fanout_no_close in Hpanic.
  - by apply sendJSON_no_close in Hpanic.
  - done.
Qed.

(** The unregister turn in a reachable world: it returns, and a session
    that was live is closed and gone from the live set and from every
    subscriber set. *)
Lemma reachable_unregister_clears marshal c w :
  reachable marshal w →
  c ∈ live w →
  ∃ w', Run marshal [] (Unregister c) w = Ok tt w' ∧
        is_closed c w' = true ∧ (c ∉ live w') ∧ ∀ t, c ∉ subscribers t w'.
Proof.
  intros Hw%reachable_wf Hlive.
  destruct (Run_unregister_wf c w Hw) as (w' & Hrun & _ & Hclear).
  exists w'. split; [done|]. by apply Hclear.
Qed.

Lemma reachable_slow : reachable plain_marshal slow_world.
Proof. apply reachable_run; [apply reachable_init|]. vm_compute. reflexivity. Qed.

(** C1. In the reachable world where sessions [1] and [2] are subscribed to
    one topic and the queue of [1] holds 256 frames, a publish to the topic
    returns, delivers the frame to [2], closes the queue of [1] and deletes
    [1] from the live set, and leaves [1] in the topic's subscriber set. *)
Theorem slow_consumer_stays_subscribed :
  reachable plain_marshal slow_world ∧
  [1; 2] ≡ₚ elements (subscribers room slow_world) ∧
  1 ∈ live slow_world ∧
  is_closed 1 slow_world = false ∧
  length (queue 1 slow_world) = sendCap ∧
  ∃ w', Broadcast plain_marshal [1; 2] room "postgres_changes" (VMap []) slow_world
        = Ok tt w' ∧
        queue 2 w' = queue 2 slow_world
                     ++ [String.list_byte_of_string "realtime:messages:S1|postgres_changes|"] ∧
        is_closed 1 w' = true ∧
        (1 ∉ live w') ∧
        1 ∈ subscribers room w'.
Proof.
  split; [apply reachable_slow|].
  split; [by_evaluation|].
  split; [by_evaluation|].
  split; [vm_compute; reflexivity|].
  split; [vm_compute; reflexivity|].
  exists (world_of (Broadcast plain_marshal [1; 2] room "postgres_changes"
                      (VMap []) slow_world)).
  split; [vm_compute; reflexivity|].
  split; [vm_compute; reflexivity|].
  split; [vm_compute; reflexivity|].
  split; by_evaluation.
Qed.

(** C2. Along the valid trace in which session [1] is evicted by a publish
    and then unregistered by its read pump, every call returns; at the end
    [1] is out of the live set with its queue closed, and is still in the
    topic's subscriber set, so that the next publish to the topic panics on
    the closed channel. *)
Theorem evicted_session_stays_subscribed :
  valid_trace plain_marshal evicted_trace NewHub = true ∧
  run plain_marshal evicted_trace NewHub = Ok tt evicted_world ∧
  (1 ∉ live evicted_world) ∧
  is_closed 1 evicted_world = true ∧
  1 ∈ subscribers room evicted_world ∧
  [1; 2] ≡ₚ elements (subscribers room evicted_world) ∧
  Broadcast plain_marshal [1; 2] room "postgres_changes" (VMap []) evicted_world
  = Panicked SendOnClosedChannel evicted_world.
Proof.
  split; [vm_compute; reflexivity|].
  split; [vm_compute; reflexivity|].
  split; [by_evaluation|].
  split; [vm_compute; reflexivity|].
  split; [by_evaluation|].
  split; [by_evaluation|].
  vm_compute. reflexivity.
Qed.

(** Without room there is no echo: in the reachable world in which session
    [1] holds 256 frames on an open channel, the dispatch of a heartbeat
    parks in the blocking send of [sendJSON]; no reply has been produced and
    the world is as it was. *)
Lemma heartbeat_on_full_queue_parks :
  reachable plain_marshal slow_world ∧
  is_closed 1 slow_world = false ∧
  length (queue 1 slow_world) = sendCap ∧
  handleMessage plain_marshal 1 heartbeat_msg slow_world = Blocked slow_world.
Proof.
  split; [apply reachable_slow|].
  split; [vm_compute; reflexivity|].
  split; [vm_compute; reflexivity|].
  unfold handleMessage, heartbeat_msg; cbn [IncomingMessage.Event IncomingMessage.Ref].
  destruct (decide ("heartbeat" = "phx_join")) as [[=]|_].
  destruct (decide ("heartbeat" = "heartbeat")) as [_|[]]; [|done].
  unfold sendJSON; cbn [plain_marshal heartbeat_reply OutgoingMessage.Payload].
  unfold chan_send.
  assert (is_closed 1 slow_world = false) as -> by (vm_compute; reflexivity).
  assert (has_room 1 slow_world = false) as -> by (vm_compute; reflexivity).
  reflexivity.
Qed.

(** C5. In the reachable world left when the evicted session [1] has had its
    backlog written out, both subscribers of the topic have non-full queues
    (none and three frames of 256) and the envelope serializes, yet the
    publish delivers to nobody or to one of them only: the channel of [1] is
    closed and [1] is still in the topic, so the fan-out panics on it; when
    [1] is visited first, session [2] gets no frame at all. *)
Theorem publish_panics_on_evicted_subscriber :
  reachable plain_marshal drained_world ∧
  [1; 2] ≡ₚ elements (subscribers room drained_world) ∧
  length (queue 1 drained_world) = 0 ∧
  length (queue 2 drained_world) = 3 ∧
  is_closed 1 drained_world = true ∧
  (1 ∉ live drained_world) ∧
  plain_marshal (OutgoingMessage.mk room "postgres_changes" (VMap []) "")
  = Some (String.list_byte_of_string "realtime:messages:S1|postgres_changes|") ∧
  Broadcast plain_marshal [1; 2] room "postgres_changes" (VMap []) drained_world
  = Panicked SendOnClosedChannel drained_world ∧
  ∃ w', Broadcast plain_marshal [2; 1] room "postgres_changes" (VMap []) drained_world
        = Panicked SendOnClosedChannel w' ∧
        queue 1 w' = [].
Proof.
  split.
  { apply reachable_run; [apply reachable_init|]. vm_compute. reflexivity. }
  split; [by_evaluation|].
  split; [vm_compute; reflexivity|].
  split; [vm_compute; reflexivity|].
  split; [vm_compute; reflexivity|].
  split; [by_evaluation|].
  split; [reflexivity|].
  split; [vm_compute; reflexivity|].
  exists (world_of (Broadcast plain_marshal [2; 1] room "postgres_changes"
                      (VMap []) drained_world)).
  split; vm_compute; reflexivity.
Qed.

(** * Properties of the rest of the code *)

(** ** What the critical sections and the channel operations leave alone *)

Lemma world_eq w1 w2 : hub w1 = hub w2 → heap w1 = heap w2 → w1 = w2.
Proof. destruct w1, w2; cbn. by intros -> ->. Qed.

Lemma get_client_enqueue_eq c data w :
  get_client c (enqueue c data w)
  = Client.mk (mkChan (queue c w ++ [data]) (is_closed c w)) (joined c w).
Proof. unfold enqueue. by rewrite get_client_set_eq. Qed.

Lemma get_client_enqueue_ne c c' data w :
  c ≠ c' → get_client c' (enqueue c data w) = get_client c' w.
Proof. intros Hne. unfold enqueue. by rewrite get_client_set_ne. Qed.

Lemma get_client_Join_eq c topic w :
  get_client c (Join c topic w)
  = Client.mk (Client.send (get_client c w)) ({[topic]} ∪ joined c w).
Proof. unfold Join. by rewrite get_client_set_eq. Qed.

Lemma get_client_Join_ne c c' topic w :
  c ≠ c' → get_client c' (Join c topic w) = get_client c' w.
Proof. intros Hne. unfold Join. by rewrite get_client_set_ne. Qed.

Lemma get_client_Leave_eq c topic w :
  get_client c (Leave c topic w)
  = Client.mk (Client.send (get_client c w)) (joined c w ∖ {[topic]}).
Proof. unfold Leave. by rewrite get_client_set_eq. Qed.

Lemma get_client_Leave_ne c c' topic w :
  c ≠ c' → get_client c' (Leave c topic w) = get_client c' w.
Proof. intros Hne. unfold Leave. by rewrite get_client_set_ne. Qed.

Lemma chan_send_ready c data w :
  is_closed c w = false →
  length (queue c w) < sendCap →
  chan_send c data w = Ok tt (enqueue c data w).
Proof.
  intros Hopen Hroom. unfold chan_send, has_room.
  by rewrite Hopen, bool_decide_eq_true_2.
Qed.

Lemma slice_from_in_range s n w :
  n ≤ String.length s →
  slice_from s n w = Ok (String.substring n (String.length s - n) s) w.
Proof. intros Hn. unfold slice_from. by rewrite bool_decide_eq_true_2. Qed.

(** ** Join, leave *)

(** The join case of [handleMessage] when nothing is in its way. *)
Lemma handleMessage_join_ok
    (marshal : OutgoingMessage.t → option Frame)
    (c : ptr) (msg : IncomingMessage.t) (ack notice : Frame) (w : World) :
  let topic := IncomingMessage.Topic msg in
  IncomingMessage.Event msg = "phx_join" →
  18 ≤ String.length topic →
  marshal (join_reply topic (IncomingMessage.Ref msg)
             (String.substring 18 (String.length topic - 18) topic)) = Some ack →
  marshal (system_reply topic
             (String.substring 9 (String.length topic - 9) topic)) = Some notice →
  is_closed c w = false →
  length (queue c w) + 2 ≤ sendCap →
  ∃ w', handleMessage marshal c msg w = Ok tt w' ∧
        queue c w' = queue c w ++ [ack; notice] ∧
        subscribers topic w' = {[c]} ∪ subscribers topic w ∧
        joined c w' = {[topic]} ∪ joined c w ∧
        live w' = live w ∧
        (∀ t, t ≠ topic → subscribers t w' = subscribers t w) ∧
        (∀ c', c' ≠ c → get_client c' w' = get_client c' w).
Proof.
  intros topic Hev Hlen Hack Hnotice Hopen Hroom.
  assert (is_closed c (Join c topic w) = false) as Hopen1.
  { unfold is_closed. by rewrite get_client_Join_eq. }
  assert (queue c (Join c topic w) = queue c w) as Hq1.
  { unfold queue. by rewrite get_client_Join_eq. }
  set (w1 := enqueue c ack (Join c topic w)).
  assert (is_closed c w1 = false) as Hopen2.
  { unfold is_closed, w1. by rewrite get_client_enqueue_eq. }
  assert (queue c w1 = queue c w ++ [ack]) as Hq2.
  { unfold queue at 1. unfold w1. rewrite get_client_enqueue_eq; cbn. by rewrite Hq1. }
  exists (enqueue c notice w1). split; [|split; [|split; [|split; [|split]]]].
  - unfold handleMessage. fold topic. rewrite Hev.
    destruct (decide ("phx_join" = "phx_join")) as [_|[]]; [|done].
    unfold bind at 1. unfold modify.
    unfold bind at 1. rewrite slice_from_in_range by (cbn; lia).
    unfold bind at 1. unfold sendJSON at 1. cbn [String.length]. rewrite Hack.
    rewrite chan_send_ready by (rewrite ?Hq1; done || lia). fold w1.
    unfold bind at 1. rewrite slice_from_in_range by (cbn; lia).
    unfold sendJSON. cbn [String.length]. rewrite Hnotice.
    apply chan_send_ready; [done|]. rewrite Hq2, length_app; cbn. lia.
  - unfold queue at 1. rewrite get_client_enqueue_eq; cbn.
    by rewrite Hq2, <- app_assoc.
  - change (subscribers topic (enqueue c notice w1)) with (subscribers topic (Join c topic w)).
    rewrite subscribers_Join. by rewrite decide_True.
  - unfold joined at 1. rewrite get_client_enqueue_eq; cbn.
    unfold joined at 1. unfold w1. rewrite get_client_enqueue_eq; cbn.
    unfold joined at 1. by rewrite get_client_Join_eq.
  - done.
  - split.
    + intros t Ht.
      change (subscribers t (enqueue c notice w1)) with (subscribers t (Join c topic w)).
      rewrite subscribers_Join. by rewrite decide_False.
    + intros c' Hne. unfold w1.
      by rewrite !get_client_enqueue_ne, get_client_Join_ne.
Qed.

(** X1. A join whose topic has at least the 18 bytes of
    ["realtime:messages:"], on a session whose channel is open with room for
    two frames: the dispatch returns; the session is subscribed to the topic
    and the topic is in its joined set; its queue gets exactly two frames,
    first the acknowledgement echoing the token, with the filter
    ["session_id=eq."] followed by the topic from byte 18 on, then the
    system notice whose channel is the topic from byte 9 on; the live set,
    the other topics and the other sessions are unchanged. *)
Theorem join_acknowledged
    (marshal : OutgoingMessage.t → option Frame)
    (c : ptr) (msg : IncomingMessage.t) (ack notice : Frame) (w : World) :
  let topic := IncomingMessage.Topic msg in
  IncomingMessage.Event msg = "phx_join" →
  18 ≤ String.length topic →
  marshal (join_reply topic (IncomingMessage.Ref msg)
             (String.substring 18 (String.length topic - 18) topic)) = Some ack →
  marshal (system_reply topic
             (String.substring 9 (String.length topic - 9) topic)) = Some notice →
  is_closed c w = false →
  length (queue c w) + 2 ≤ sendCap →
  ∃ w', handleMessage marshal c msg w = Ok tt w' ∧
        queue c w' = queue c w ++ [ack; notice] ∧
        subscribers topic w' = {[c]} ∪ subscribers topic w ∧
        joined c w' = {[topic]} ∪ joined c w ∧
        live w' = live w ∧
        (∀ t, t ≠ topic → subscribers t w' = subscribers t w) ∧
        (∀ c', c' ≠ c → get_client c' w' = get_client c' w).
Proof.
  intros topic. by apply handleMessage_join_ok.
Qed.

Lemma join_acknowledged_witness :
  ∃ w', handleMessage plain_marshal 1 (join_msg room) one_session_world = Ok tt w' ∧
        queue 1 w' = queue 1 one_session_world
                     ++ [String.list_byte_of_string "realtime:messages:S1|phx_reply|1";
                         String.list_byte_of_string "realtime:messages:S1|system|"] ∧
        subscribers room w' = {[1]} ∪ subscribers room one_session_world ∧
        joined 1 w' = {[room]} ∪ joined 1 one_session_world ∧
        live w' = live one_session_world ∧
        (∀ t, t ≠ room → subscribers t w' = subscribers t one_session_world) ∧
        (∀ c', c' ≠ 1 → get_client c' w' = get_client c' one_session_world).
Proof.
  apply (join_acknowledged plain_marshal 1 (join_msg room)
           (String.list_byte_of_string "realtime:messages:S1|phx_reply|1")
           (String.list_byte_of_string "realtime:messages:S1|system|")
           one_session_world).
  - reflexivity.
  - cbn. lia.
  - reflexivity.
  - reflexivity.
  - vm_compute. reflexivity.
  - vm_compute. lia.
Defined.

(** X2. Joining twice is joining once: a second [Join] of the same session
    to the same topic leaves the world exactly as the first one left it. *)
Theorem Join_idempotent (c : ptr) (topic : string) (w : World) :
  Join c topic (Join c topic w) = Join c topic w.
Proof.
  apply world_eq.
  - assert (Hub.topics (hub (Join c topic (Join c topic w)))
            = Hub.topics (hub (Join c topic w))) as Htopics.
    { rewrite (Join_topics c topic (Join c topic w)), subscribers_Join, decide_True by done.
      rewrite Join_topics, insert_insert_eq. f_equal. set_solver. }
    destruct (hub (Join c topic (Join c topic w))) as [cl2 tm2] eqn:H2.
    destruct (hub (Join c topic w)) as [cl1 tm1] eqn:H1.
    cbn in Htopics. subst tm2. f_equal.
    assert (Hub.clients (hub (Join c topic (Join c topic w)))
            = Hub.clients (hub (Join c topic w))) as Hcl by reflexivity.
    by rewrite H2, H1 in Hcl.
  - unfold Join at 1. cbn [heap set_client set_hub].
    rewrite get_client_Join_eq. cbn [Client.send Client.topics].
    unfold Join. cbn [heap set_client set_hub].
    rewrite insert_insert_eq. f_equal. f_equal. unfold joined. set_solver.
Qed.

(** X3. Leaving a topic the session is not subscribed to, in a world without
    empty topics, changes neither the topic map nor the live set; the session
    itself only loses the topic from its joined set. *)
Theorem Leave_not_subscribed (c : ptr) (topic : string) (w : World) :
  (∀ t clients, Hub.topics (hub w) !! t = Some clients → clients ≠ ∅) →
  c ∉ subscribers topic w →
  hub (Leave c topic w) = hub w ∧
  joined c (Leave c topic w) = joined c w ∖ {[topic]} ∧
  queue c (Leave c topic w) = queue c w ∧
  ∀ c', c' ≠ c → get_client c' (Leave c topic w) = get_client c' w.
Proof.
  intros Hne Hout. split; [|split; [|split]].
  - assert (drop_subscriber c (Hub.topics (hub w)) topic = Hub.topics (hub w)) as Hsame.
    { unfold drop_subscriber. unfold subscribers in Hout.
      destruct (Hub.topics (hub w) !! topic) as [clients|] eqn:Htopic; [|done].
      cbn in Hout.
      assert (clients ∖ {[c]} = clients) as -> by set_solver.
      rewrite decide_False.
      - by apply insert_id.
      - intros Hsize. apply size_empty_iff in Hsize.
        apply (Hne topic clients Htopic). by apply leibniz_equiv. }
    unfold Leave; cbn. rewrite Hsame. by destruct (hub w).
  - unfold joined at 1. by rewrite get_client_Leave_eq.
  - unfold queue at 1. by rewrite get_client_Leave_eq.
  - intros c' Hc'. by apply get_client_Leave_ne.
Qed.

Lemma Leave_not_subscribed_witness :
  1 ∈ subscribers room one_joined_world ∧
  is_Some (heap one_joined_world !! 2) ∧
  hub (Leave 2 room one_joined_world) = hub one_joined_world ∧
  joined 2 (Leave 2 room one_joined_world) = joined 2 one_joined_world ∖ {[room]} ∧
  queue 2 (Leave 2 room one_joined_world) = queue 2 one_joined_world ∧
  ∀ c', c' ≠ 2 → get_client c' (Leave 2 room one_joined_world)
                 = get_client c' one_joined_world.
Proof.
  split; [apply (bool_decide_unpack _); vm_compute; exact I|].
  split; [apply (bool_decide_unpack _); vm_compute; exact I|].
  apply (Leave_not_subscribed 2 room one_joined_world).
  - apply (bool_decide_unpack
             (map_Forall (λ _ clients, clients ≠ ∅) (Hub.topics (hub one_joined_world)))).
    vm_compute. exact I.
  - apply (bool_decide_unpack _). vm_compute. exact I.
Defined.

(** X4. A leave on a session whose channel is open with room: the dispatch
    returns; the session is removed from the topic's subscriber set and the
    topic from its joined set; exactly one frame, the acknowledgement on the
    same topic echoing the token, is put on its queue; the subscriber sets of
    the other topics, the live set and the other sessions are unchanged. *)
Theorem leave_acknowledged
    (marshal : OutgoingMessage.t → option Frame)
    (c : ptr) (msg : IncomingMessage.t) (ack : Frame) (w : World) :
  let topic := IncomingMessage.Topic msg in
  IncomingMessage.Event msg = "phx_leave" →
  marshal (leave_reply topic (IncomingMessage.Ref msg)) = Some ack →
  is_closed c w = false →
  length (queue c w) < sendCap →
  ∃ w', handleMessage marshal c msg w = Ok tt w' ∧
        queue c w' = queue c w ++ [ack] ∧
        subscribers topic w' = subscribers topic w ∖ {[c]} ∧
        joined c w' = joined c w ∖ {[topic]} ∧
        live w' = live w ∧
        (∀ t, t ≠ topic → subscribers t w' = subscribers t w) ∧
        (∀ c', c' ≠ c → get_client c' w' = get_client c' w).
Proof.
  intros topic Hev Hack Hopen Hroom.
  exists (enqueue c ack (Leave c topic w)).
  split; [|split; [|split; [|split; [|split; [|split]]]]].
  - unfold handleMessage. fold topic. rewrite Hev.
    destruct (decide ("phx_leave" = "phx_join")) as [[=]|_].
    destruct (decide ("phx_leave" = "heartbeat")) as [[=]|_].
    destruct (decide ("phx_leave" = "phx_leave")) as [_|[]]; [|done].
    unfold bind, modify, sendJSON. rewrite Hack.
    apply chan_send_ready.
    + unfold is_closed. by rewrite get_client_Leave_eq.
    + unfold queue. by rewrite get_client_Leave_eq.
  - unfold queue at 1. rewrite get_client_enqueue_eq; cbn.
    unfold queue at 1. by rewrite get_client_Leave_eq.
  - change (subscribers topic (enqueue c ack (Leave c topic w)))
      with (subscribers topic (Leave c topic w)).
    rewrite subscribers_Leave. by rewrite decide_True.
  - unfold joined at 1. rewrite get_client_enqueue_eq; cbn.
    unfold joined at 1. by rewrite get_client_Leave_eq.
  - done.
  - intros t Ht.
    change (subscribers t (enqueue c ack (Leave c topic w)))
      with (subscribers t (Leave c topic w)).
    rewrite subscribers_Leave. by rewrite decide_False.
  - intros c' Hne. by rewrite get_client_enqueue_ne, get_client_Leave_ne.
Qed.

Lemma leave_acknowledged_witness :
  ∃ w', handleMessage plain_marshal 1 (IncomingMessage.mk room "phx_leave" [] "7")
          two_joined_world = Ok tt w' ∧
        queue 1 w' = queue 1 two_joined_world
                     ++ [String.list_byte_of_string "realtime:messages:S1|phx_reply|7"] ∧
        subscribers room w' = subscribers room two_joined_world ∖ {[1]} ∧
        joined 1 w' = joined 1 two_joined_world ∖ {[room]} ∧
        live w' = live two_joined_world ∧
        (∀ t, t ≠ room → subscribers t w' = subscribers t two_joined_world) ∧
        (∀ c', c' ≠ 1 → get_client c' w' = get_client c' two_joined_world).
Proof.
  apply (leave_acknowledged plain_marshal 1 (IncomingMessage.mk room "phx_leave" [] "7")
           (String.list_byte_of_string "realtime:messages:S1|phx_reply|7")
           two_joined_world).
  - reflexivity.
  - reflexivity.
  - vm_compute. reflexivity.
  - apply (bool_decide_unpack _). vm_compute. exact I.
Defined.

(** ** The inbound pump, to its end *)

Lemma handleMessage_unknown marshal c msg w :
  IncomingMessage.Event msg ≠ "phx_join" →
  IncomingMessage.Event msg ≠ "heartbeat" →
  IncomingMessage.Event msg ≠ "phx_leave" →
  handleMessage marshal c msg w = Ok tt w.
Proof. intros H1 H2 H3. unfold handleMessage. by rewrite !decide_False. Qed.

Lemma readPump_ignored marshal unmarshal c pre : ∀ rest w,
  Forall (ignored unmarshal) pre →
  readPump marshal unmarshal c (pre ++ rest) w = readPump marshal unmarshal c rest w.
Proof.
  induction pre as [|r pre IH]; intros rest w Hpre; [done|].
  apply Forall_cons in Hpre as [Hr Hpre].
  destruct r as [|message]; [done|]. cbn in Hr |- *.
  destruct (unmarshal message) as [msg|]; [|by apply IH].
  destruct Hr as (H1 & H2 & H3).
  unfold bind, unwinding. rewrite handleMessage_unknown by done. by apply IH.
Qed.

(** X5. A stream of frames each of which either does not decode or carries
    an event other than the three handled ones has no effect at all: the
    pump is back at reading and the world is the one it started from. *)
Theorem readPump_ignores_unknown
    (marshal : OutgoingMessage.t → option Frame)
    (unmarshal : Frame → option IncomingMessage.t)
    (c : ptr) (reads : list ReadResult) (w : World) :
  Forall (ignored unmarshal) reads →
  readPump marshal unmarshal c reads w = Ok Reading w.
Proof.
  intros Hreads.
  rewrite <- (app_nil_r reads). by rewrite readPump_ignored.
Qed.

Lemma readPump_ignores_unknown_witness :
  readPump plain_marshal
    (λ message, match message with
                | [] => None
                | _ => Some (IncomingMessage.mk "t" "presence" [] "")
                end)
    1 [ReadMessage []; ReadMessage [x01]; ReadMessage []] two_joined_world
  = Ok Reading two_joined_world.
Proof.
  apply (readPump_ignores_unknown plain_marshal _ 1
           [ReadMessage []; ReadMessage [x01]; ReadMessage []] two_joined_world).
  repeat constructor; cbn; discriminate.
Defined.

(** X6. When the read fails after a run of ignored frames, on a session that
    is live in a reachable world, the pump stops and the deferred unregister
    has closed the session's queue and removed it from the live set and from
    every subscriber set; whatever the transport would deliver after the
    failed read is never looked at. *)
Theorem readPump_read_error_unregisters
    (marshal : OutgoingMessage.t → option Frame)
    (unmarshal : Frame → option IncomingMessage.t)
    (c : ptr) (pre rest : list ReadResult) (w : World) :
  reachable marshal w →
  c ∈ live w →
  Forall (ignored unmarshal) pre →
  ∃ w', readPump marshal unmarshal c (pre ++ ReadError :: rest) w = Ok Stopped w' ∧
        is_closed c w' = true ∧
        (c ∉ live w') ∧
        (∀ t, c ∉ subscribers t w') ∧
        queue c w' = queue c w.
Proof.
  intros Hw Hlive Hpre.
  pose proof (reachable_wf marshal w Hw) as Hwf.
  destruct (Run_unregister_wf c w Hwf) as (w' & Hrun & _ & Hclear).
  destruct (Hclear Hlive) as (Hclosed & Hout & Hgone).
  exists w'. rewrite readPump_ignored by done. cbn [readPump Run].
  unfold bind. rewrite Hrun. split; [done|]. split; [done|].
  split; [done|]. split; [done|].
  revert Hrun. unfold Run_unregister. rewrite decide_True by done.
  unfold bind, delete_client, modify, chan_close.
  change (is_closed c (set_hub ?h w)) with (is_closed c w).
  rewrite (wf_live_open w Hwf c Hlive). intros [= <-].
  unfold queue, mark_closed. rewrite get_client_set_hub.
  by rewrite get_client_set_eq.
Qed.

Lemma readPump_read_error_unregisters_witness :
  ∃ w', readPump plain_marshal plain_unmarshal 1
          ([ReadMessage []] ++ ReadError :: [ReadMessage [x01]]) two_joined_world
        = Ok Stopped w' ∧
        is_closed 1 w' = true ∧
        (1 ∉ live w') ∧
        (∀ t, 1 ∉ subscribers t w') ∧
        queue 1 w' = queue 1 two_joined_world.
Proof.
  apply (readPump_read_error_unregisters plain_marshal plain_unmarshal 1
           [ReadMessage []] [ReadMessage [x01]] two_joined_world).
  - exact reachable_two_joined.
  - apply (bool_decide_unpack _). vm_compute. exact I.
  - repeat constructor.
Defined.

(** ** Unregistration *)

(** X7. In a well-formed registry, unregistering is idempotent: the hub's
    unregister turn returns, and a second unregister turn for the same
    session returns with the world exactly as the first one left it, without
    a second close. *)
Theorem unregister_twice
    (marshal : OutgoingMessage.t → option Frame) (c : ptr) (w : World) :
  reachable marshal w →
  ∃ w', Run marshal [] (Unregister c) w = Ok tt w' ∧
        Run marshal [] (Unregister c) w' = Ok tt w'.
Proof.
  intros Hw%reachable_wf. cbn [Run].
  destruct (Run_unregister_wf c w Hw) as (w' & Hrun & _ & Hclear).
  exists w'. split; [done|].
  destruct (decide (c ∈ live w)) as [Hlive|Hdead].
  - destruct (Hclear Hlive) as (_ & Hout & _).
    unfold Run_unregister. by rewrite decide_False.
  - unfold Run_unregister in Hrun |- *.
    rewrite decide_False in Hrun by done. injection Hrun as <-.
    by rewrite decide_False.
Qed.

Lemma unregister_twice_witness :
  ∃ w', Run plain_marshal [] (Unregister 1) two_joined_world = Ok tt w' ∧
        Run plain_marshal [] (Unregister 1) w' = Ok tt w'.
Proof.
  apply (unregister_twice plain_marshal 1 two_joined_world).
  exact reachable_two_joined.
Defined.

(** X8. The unregister turn touches one session only: when it returns, every
    other session has the record, the liveness and the subscriptions it had,
    and the unregistered session keeps its joined set and its buffered
    frames. *)
Theorem unregister_leaves_others (c : ptr) (w w' : World) :
  Run_unregister c w = Ok tt w' →
  joined c w' = joined c w ∧
  queue c w' = queue c w ∧
  ∀ c', c' ≠ c →
        get_client c' w' = get_client c' w ∧
        (c' ∈ live w' ↔ c' ∈ live w) ∧
        ∀ t, c' ∈ subscribers t w' ↔ c' ∈ subscribers t w.
Proof.
  unfold Run_unregister. destruct (decide (c ∈ Hub.clients (hub w))) as [Hlive|Hdead].
  - unfold bind, delete_client, modify, chan_close.
    change (is_closed c (set_hub ?h w)) with (is_closed c w).
    destruct (is_closed c w) eqn:Hclosed; [done|]. intros [= <-].
    split; [|split].
    + unfold joined, mark_closed. rewrite !get_client_set_hub.
      by rewrite get_client_set_eq.
    + unfold queue, mark_closed. rewrite !get_client_set_hub.
      by rewrite get_client_set_eq.
    + intros c' Hne. split; [|split].
      * unfold mark_closed. rewrite !get_client_set_hub.
        by rewrite get_client_set_ne.
      * unfold live; cbn. set_solver.
      * intros t.
        match goal with
        | |- _ ∈ subscribers t (set_hub ?h ?w1) ↔ _ =>
            assert (subscribers t (set_hub h w1)
                    = if decide (t ∈ joined c w1)
                      then subscribers t w1 ∖ {[c]} else subscribers t w1) as ->
              by apply (subscribers_unregistered c _ w1 t);
            change (subscribers t w1) with (subscribers t w)
        end.
        case_decide; set_solver.
  - intros [= <-]. split; [done|]. split; [done|]. by intros c' Hne.
Qed.

Lemma unregister_leaves_others_witness :
  joined 1 (world_of (Run_unregister 1 two_joined_world)) = joined 1 two_joined_world ∧
  queue 1 (world_of (Run_unregister 1 two_joined_world)) = queue 1 two_joined_world ∧
  ∀ c', c' ≠ 1 →
        get_client c' (world_of (Run_unregister 1 two_joined_world))
        = get_client c' two_joined_world ∧
        (c' ∈ live (world_of (Run_unregister 1 two_joined_world))
         ↔ c' ∈ live two_joined_world) ∧
        ∀ t, c' ∈ subscribers t (world_of (Run_unregister 1 two_joined_world))
             ↔ c' ∈ subscribers t two_joined_world.
Proof.
  apply (unregister_leaves_others 1 two_joined_world).
  vm_compute. reflexivity.
Defined.

(** ** What a publish never does *)

Lemma fanout_never_parks data order : ∀ w w', fanout data order w ≠ Blocked w'.
Proof.
  induction order as [|c order IH]; intros w w'; [done|].
  cbn [fanout]. unfold bind at 1.
  destruct (select_send_cases data c w) as [[_ ->]|[_ ->]]; [done|apply IH].
Qed.

Lemma fanout_live_shrinks data order : ∀ w, live (world_of (fanout data order w)) ⊆ live w.
Proof.
  induction order as [|c order IH]; intros w; [done|].
  cbn [fanout]. unfold bind at 1.
  destruct (select_send_cases data c w) as [[_ ->]|[_ ->]]; [done|].
  etrans; [apply IH|]. intros c'. rewrite visit_live. tauto.
Qed.

Lemma fanout_joined data order : ∀ w c,
  joined c (world_of (fanout data order w)) = joined c w.
Proof.
  induction order as [|c0 order IH]; intros w c; [done|].
  cbn [fanout]. unfold bind at 1.
  destruct (select_send_cases data c0 w) as [[_ ->]|[_ ->]]; [done|].
  rewrite IH. apply visit_joined.
Qed.

(** X9. Whatever the channel states and the visiting order, the broadcast
    turn of the hub never parks on a subscriber; and in the world it leaves,
    also when it panics, the topic map and every joined set are the ones it
    found and no session has been added to the live set. *)
Theorem broadcast_never_parks
    (marshal : OutgoingMessage.t → option Frame)
    (order : list ptr) (message : BroadcastMessage.t) (w : World) :
  (∀ w', Run_broadcast marshal order message w ≠ Blocked w') ∧
  Hub.topics (hub (world_of (Run_broadcast marshal order message w)))
  = Hub.topics (hub w) ∧
  live (world_of (Run_broadcast marshal order message w)) ⊆ live w ∧
  ∀ c, joined c (world_of (Run_broadcast marshal order message w)) = joined c w.
Proof.
  unfold Run_broadcast.
  destruct (Hub.topics (hub w) !! BroadcastMessage.Topic message) as [clients|];
    [destruct (marshal (BroadcastMessage.Msg message)) as [data|]|]; try done.
  split; [apply fanout_never_parks|]. split; [|split].
  - by apply (keeps_fanout (λ w', Hub.topics (hub w') = Hub.topics (hub w)));
      [intros w1 w2 -> | ].
  - apply fanout_live_shrinks.
  - intros c. apply fanout_joined.
Qed.

Lemma fanout_closed_panics data order : ∀ w b,
  b ∈ order → is_closed b w = true →
  ∃ w', fanout data order w = Panicked SendOnClosedChannel w'.
Proof.
  induction order as [|c order IH]; intros w b Hb Hclosed.
  - by apply elem_of_nil in Hb.
  - cbn [fanout]. unfold bind at 1.
    destruct (select_send_cases data c w) as [[_ ->]|[Hopen ->]]; [by eexists|].
    apply elem_of_cons in Hb as [->|Hb]; [congruence|].
    apply (IH _ b Hb).
    destruct (decide (c = b)) as [->|Hne]; [congruence|].
    unfold is_closed. by rewrite visit_other.
Qed.

(** X10. A publish to a topic one of whose subscribers has a closed channel
    panics with a send on a closed channel, whichever order the subscribers
    are visited in, as long as the envelope serializes. *)
Theorem publish_to_closed_subscriber_panics
    (marshal : OutgoingMessage.t → option Frame)
    (order : list ptr) (topic event : string) (payload : Value)
    (data : Frame) (b : ptr) (w : World) :
  order ≡ₚ elements (subscribers topic w) →
  marshal (OutgoingMessage.mk topic event payload "") = Some data →
  b ∈ subscribers topic w →
  is_closed b w = true →
  ∃ w', Broadcast marshal order topic event payload w
        = Panicked SendOnClosedChannel w'.
Proof.
  intros Hperm Hdata Hb Hclosed.
  unfold Broadcast, Run, Run_broadcast, published; cbn. rewrite Hdata.
  destruct (Hub.topics (hub w) !! topic) as [clients|] eqn:Htopic.
  - apply (fanout_closed_panics data order w b); [|done].
    rewrite Hperm. by apply elem_of_elements.
  - unfold subscribers in Hb. rewrite Htopic in Hb. cbn in Hb. set_solver.
Qed.

Lemma publish_to_closed_subscriber_panics_witness :
  ∃ w', Broadcast plain_marshal [2; 1] room "postgres_changes" (VMap []) evicted_world
        = Panicked SendOnClosedChannel w'.
Proof.
  apply (publish_to_closed_subscriber_panics plain_marshal [2; 1] room
           "postgres_changes" (VMap [])
           (String.list_byte_of_string "realtime:messages:S1|postgres_changes|")
           1 evicted_world).
  - apply (bool_decide_unpack _). vm_compute. exact I.
  - reflexivity.
  - apply (bool_decide_unpack _). vm_compute. exact I.
  - vm_compute. reflexivity.
Defined.

(** ** Invariants of the reachable worlds *)

(** X11. In every reachable world a live session has an open channel, every
    subscription of a session is recorded in its joined set, and the members
    of the live set and of the subscriber sets are allocated clients. *)
Theorem reachable_registry_consistent
    (marshal : OutgoingMessage.t → option Frame) (w : World) :
  reachable marshal w →
  (∀ c, c ∈ live w → is_closed c w = false) ∧
  (∀ c t, c ∈ subscribers t w → t ∈ joined c w) ∧
  (∀ c, c ∈ live w → is_Some (heap w !! c)) ∧
  (∀ c t, c ∈ subscribers t w → is_Some (heap w !! c)).
Proof.
  intros [Hla Hsa Hlo Hsj]%reachable_wf. repeat split; try done.
Qed.

Lemma reachable_registry_consistent_witness :
  (∀ c, c ∈ live slow_world → is_closed c slow_world = false) ∧
  (∀ c t, c ∈ subscribers t slow_world → t ∈ joined c slow_world) ∧
  (∀ c, c ∈ live slow_world → is_Some (heap slow_world !! c)) ∧
  (∀ c t, c ∈ subscribers t slow_world → is_Some (heap slow_world !! c)).
Proof.
  apply (reachable_registry_consistent plain_marshal slow_world).
  exact reachable_slow.
Defined.





(** ** The outbound pump *)

Lemma get_client_recv_eq c w :
  get_client c (recv c w)
  = Client.mk (mkChan (tail (queue c w)) (is_closed c w)) (joined c w).
Proof. unfold recv. by rewrite get_client_set_eq. Qed.

Lemma get_client_recv_ne c c' w : c ≠ c' → get_client c' (recv c w) = get_client c' w.
Proof. intros Hne. unfold recv. by rewrite get_client_set_ne. Qed.

(** The drain loop takes the first [n] buffered frames, in order. *)
Lemma drain_buffered c n : ∀ w,
  n ≤ length (queue c w) →
  ∃ w', drain c n w = Ok (TextMessage <$> take n (queue c w)) w' ∧
        queue c w' = drop n (queue c w) ∧
        is_closed c w' = is_closed c w ∧
        hub w' = hub w ∧
        joined c w' = joined c w ∧
        ∀ c', c' ≠ c → get_client c' w' = get_client c' w.
Proof.
  induction n as [|n IH]; intros w Hn.
  - exists w. cbn. by rewrite drop_0.
  - destruct (queue c w) as [|message q] eqn:Hq; [cbn in Hn; lia|].
    assert (queue c (recv c w) = q) as Hq1.
    { unfold queue at 1. rewrite get_client_recv_eq; cbn. by rewrite Hq. }
    destruct (IH (recv c w)) as (w' & Hrun & Hq' & Hcl & Hhub & Hj & Hother).
    { rewrite Hq1. cbn in Hn. lia. }
    exists w'. split; [|split; [|split; [|split; [|split]]]].
    + cbn [drain]. unfold bind at 1. unfold chan_recv. rewrite Hq.
      unfold bind. rewrite Hrun. cbn. by rewrite Hq1.
    + by rewrite Hq', Hq1.
    + rewrite Hcl. unfold is_closed at 1. by rewrite get_client_recv_eq.
    + by rewrite Hhub.
    + rewrite Hj. unfold joined at 1. by rewrite get_client_recv_eq.
    + intros c' Hne. rewrite Hother by done. by apply get_client_recv_ne.
Qed.

(** The channel case of [writePump] on a non-empty queue. *)
Lemma writePump_turn_nonempty (c : ptr) (w : World) :
  queue c w ≠ [] →
  ∃ w', writePump_turn c SendReady w = Ok (TextMessage <$> queue c w, Writing) w' ∧
        queue c w' = [] ∧
        is_closed c w' = is_closed c w ∧
        hub w' = hub w ∧
        joined c w' = joined c w ∧
        ∀ c', c' ≠ c → get_client c' w' = get_client c' w.
Proof.
  intros Hne.
  destruct (queue c w) as [|message q] eqn:Hq; [done|].
  assert (queue c (recv c w) = q) as Hq1.
  { unfold queue at 1. rewrite get_client_recv_eq; cbn. by rewrite Hq. }
  destruct (drain_buffered c (length q) (recv c w)) as (w' & Hrun & Hq' & Hcl & Hhub & Hj & Hother).
  { by rewrite Hq1. }
  exists w'. split; [|split; [|split; [|split; [|split]]]].
  - cbn [writePump_turn]. unfold bind at 1. unfold chan_recv. rewrite Hq. cbn [snd fst].
    unfold bind at 1. unfold chan_len. rewrite Hq1.
    unfold bind. rewrite Hrun. cbn. by rewrite Hq1, firstn_all.
  - by rewrite Hq', Hq1, drop_all.
  - rewrite Hcl. unfold is_closed at 1. by rewrite get_client_recv_eq.
  - by rewrite Hhub.
  - rewrite Hj. unfold joined at 1. by rewrite get_client_recv_eq.
  - intros c' Hc'. rewrite Hother by done. by apply get_client_recv_ne.
Qed.

(** X13. Woken by a non-empty queue, [writePump] writes every buffered
    frame to the connection as a text message, in the order in which the
    frames were queued, and leaves the queue empty; it goes on running, and
    the closed flag, the registry, the joined set and the other sessions are
    untouched. *)
Theorem writePump_drains_in_order (c : ptr) (w : World) :
  queue c w ≠ [] →
  ∃ w', writePump_turn c SendReady w = Ok (TextMessage <$> queue c w, Writing) w' ∧
        queue c w' = [] ∧
        is_closed c w' = is_closed c w ∧
        hub w' = hub w ∧
        joined c w' = joined c w ∧
        ∀ c', c' ≠ c → get_client c' w' = get_client c' w.
Proof. apply writePump_turn_nonempty. Qed.

Lemma writePump_drains_in_order_witness :
  ∃ w', writePump_turn 1 SendReady slow_world
        = Ok (TextMessage <$> queue 1 slow_world, Writing) w' ∧
        queue 1 w' = [] ∧
        is_closed 1 w' = is_closed 1 slow_world ∧
        hub w' = hub slow_world ∧
        joined 1 w' = joined 1 slow_world ∧
        ∀ c', c' ≠ 1 → get_client c' w' = get_client c' slow_world.
Proof.
  apply (writePump_drains_in_order 1 slow_world).
  vm_compute. discriminate.
Defined.

Lemma without_pings_texts (frames : list Frame) :
  without_pings (TextMessage <$> frames) = TextMessage <$> frames.
Proof.
  induction frames as [|f frames IH]; [done|].
  change (TextMessage f :: without_pings (TextMessage <$> frames)
          = TextMessage f :: (TextMessage <$> frames)).
  by rewrite IH.
Qed.

Lemma without_pings_app l1 l2 :
  without_pings (l1 ++ l2) = without_pings l1 ++ without_pings l2.
Proof. apply List.filter_app. Qed.

(** On a closed channel with nothing buffered, the pump pings on each tick
    and returns with the close message at the first wake-up by the
    channel. *)
Lemma writePump_closed_empty c events : ∀ w,
  is_closed c w = true →
  queue c w = [] →
  Forall (λ ev, ev ≠ Tick true) events →
  1 ≤ channel_wakeups events →
  ∃ written, writePump c events w = Ok (written, Returned) w ∧
             without_pings written = [CloseMessage].
Proof.
  induction events as [|ev events IH]; intros w Hclosed Hq Hticks Hwake.
  - cbn in Hwake. lia.
  - apply Forall_cons in Hticks as [Hev Hticks].
    destruct ev as [|[|]]; [| done |].
    + exists [CloseMessage]. split; [|done].
      cbn [writePump writePump_turn]. unfold bind, chan_recv. by rewrite Hq, Hclosed.
    + destruct (IH w Hclosed Hq Hticks) as (written & Hrun & Hout); [done|].
      exists (PingMessage :: written). split; [|done].
      cbn [writePump writePump_turn]. unfold bind at 1. cbn [ret snd fst].
      unfold bind. by rewrite Hrun.
Qed.

(** X14. Once the hub has closed a session's channel, and as long as no
    write of a ping fails, a [writePump] that the channel wakes at least
    twice writes, pings aside, the frames still buffered, in order, then the
    close message, and returns; the queue is then empty and the registry
    untouched. *)
Theorem writePump_closed_channel
    (c : ptr) (events : list PumpEvent) (w : World) :
  is_closed c w = true →
  Forall (λ ev, ev ≠ Tick true) events →
  2 ≤ channel_wakeups events →
  ∃ written w',
    writePump c events w = Ok (written, Returned) w' ∧
    without_pings written = (TextMessage <$> queue c w) ++ [CloseMessage] ∧
    queue c w' = [] ∧
    hub w' = hub w.
Proof.
  revert w. induction events as [|ev events IH]; intros w Hclosed Hticks Hwake.
  - cbn in Hwake. lia.
  - apply Forall_cons in Hticks as [Hev Hticks].
    destruct ev as [|[|]]; [| done |].
    + destruct (queue c w) as [|message q] eqn:Hq.
      * exists [CloseMessage], w. split; [|by split].
        cbn [writePump writePump_turn]. unfold bind, chan_recv. by rewrite Hq, Hclosed.
      * destruct (writePump_turn_nonempty c w) as (w1 & Hturn & Hq1 & Hcl & Hhub & _).
        { by rewrite Hq. }
        destruct (writePump_closed_empty c events w1) as (written & Hrun & Hout).
        { by rewrite Hcl. }
        { done. }
        { done. }
        { unfold channel_wakeups in *. cbn in Hwake. lia. }
        exists ((TextMessage <$> queue c w) ++ written), w1.
        split; [|split; [|by split]].
        -- cbn [writePump]. unfold bind at 1. rewrite Hturn. cbn [snd fst].
           unfold bind. by rewrite Hrun.
        -- rewrite without_pings_app, without_pings_texts, Hout. by rewrite Hq.
    + destruct (IH w Hclosed Hticks) as (written & w' & Hrun & Hout & Hq' & Hhub); [done|].
      exists (PingMessage :: written), w'. split; [|by split].
      cbn [writePump writePump_turn]. unfold bind at 1. cbn [ret snd fst].
      unfold bind. by rewrite Hrun.
Qed.

Lemma writePump_closed_channel_witness :
  ∃ written w',
    writePump 1 [Tick false; SendReady; Tick false; SendReady; Tick false] evicted_world
    = Ok (written, Returned) w' ∧
    without_pings written = (TextMessage <$> queue 1 evicted_world) ++ [CloseMessage] ∧
    queue 1 w' = [] ∧
    hub w' = hub evicted_world.
Proof.
  apply (writePump_closed_channel 1
           [Tick false; SendReady; Tick false; SendReady; Tick false] evicted_world).
  - vm_compute. reflexivity.
  - repeat constructor; discriminate.
  - vm_compute. lia.
Defined.

(** ** Strings of the handlers *)

Lemma substring_whole s : String.substring 0 (String.length s) s = s.
Proof. induction s as [|a s IH]; [done|]. cbn. by rewrite IH. Qed.

Lemma substring_drop_prefix p s :
  String.substring (String.length p) (String.length (p +:+ s) - String.length p) (p +:+ s)
  = s.
Proof.
  induction p as [|a p IH]; cbn.
  - rewrite Nat.sub_0_r. apply substring_whole.
  - apply IH.
Qed.

Lemma length_append p s : String.length (p +:+ s) = String.length p + String.length s.
Proof.
  induction p as [|a p IH]; [done|].
  change (S (String.length (p +:+ s)) = S (String.length p + String.length s)).
  by rewrite IH.
Qed.

Lemma substring_prefix p s : String.substring 0 (String.length p) (p +:+ s) = p.
Proof.
  induction p as [|a p IH]; [by destruct s|].
  change (String a (String.substring 0 (String.length p) (p +:+ s)) = String a p).
  by rewrite IH.
Qed.

Lemma prefix_append p s : String.prefix p (p +:+ s) = true.
Proof. apply String.prefix_correct, substring_prefix. Qed.

Lemma substring_split p : ∀ s,
  String.substring 0 (String.length p) s = p → ∃ r, s = p +:+ r.
Proof.
  induction p as [|a p IH]; intros s.
  - intros _. by exists s.
  - destruct s as [|b s]; [done|].
    change (String.substring 0 (String.length (String a p)) (String b s))
      with (String b (String.substring 0 (String.length p) s)).
    intros [= -> [r ->]%IH]. by exists r.
Qed.

Lemma prefix_split p s : String.prefix p s = true → ∃ r, s = p +:+ r.
Proof. intros Hp%String.prefix_correct. by apply substring_split. Qed.

Lemma extractEqValue_eq x : handlers.extractEqValue ("eq." +:+ x) = Some x.
Proof.
  unfold handlers.extractEqValue. rewrite prefix_append.
  unfold handlers.string_slice.
  rewrite bool_decide_eq_true_2 by (rewrite length_append; cbn; lia).
  f_equal. apply (substring_drop_prefix "eq." x).
Qed.

Lemma extractEqValue_cases s :
  ∃ r, handlers.extractEqValue s = Some r ∧
       ((String.prefix "eq." s = true ∧ s = "eq." +:+ r) ∨
        (String.prefix "eq." s = false ∧ r = s)).
Proof.
  destruct (String.prefix "eq." s) eqn:Hprefix.
  - destruct (prefix_split _ _ Hprefix) as [r ->].
    exists r. split; [apply extractEqValue_eq|]. by left.
  - exists s. split; [|by right]. unfold handlers.extractEqValue. by rewrite Hprefix.
Qed.

(** X15. [extractEqValue] never slices out of range: it always returns, with
    the argument stripped of one leading ["eq."] when it has one and the
    argument itself otherwise; in particular it undoes the ["eq."] that the
    client puts in front of a value. *)
Theorem extractEqValue_strips_prefix (s : string) :
  (∃ r, handlers.extractEqValue s = Some r ∧
        ((String.prefix "eq." s = true ∧ s = "eq." +:+ r) ∨
         (String.prefix "eq." s = false ∧ r = s))) ∧
  handlers.extractEqValue ("eq." +:+ s) = Some s.
Proof. split; [apply extractEqValue_cases|apply extractEqValue_eq]. Qed.

(** ** Package [db] *)

Lemma find_elem_of {A} (f : A → bool) (l : list A) (x : A) :
  List.find f l = Some x → x ∈ l ∧ f x = true.
Proof. intros [Hin Hf]%find_some. split; [by apply list_elem_of_In|done]. Qed.

Lemma find_first {A} (f : A → bool) (pre post : list A) (x : A) :
  (∀ y, y ∈ pre → f y = false) → f x = true →
  List.find f (pre ++ x :: post) = Some x.
Proof.
  intros Hpre Hx. induction pre as [|y pre IH]; cbn.
  - by rewrite Hx.
  - rewrite (Hpre y) by left. apply IH. intros z Hz. apply Hpre. by right.
Qed.

Lemma find_app_l {A} (f : A → bool) (l l' : list A) (x : A) :
  List.find f l = Some x → List.find f (l ++ l') = Some x.
Proof.
  induction l as [|y l IH]; cbn; [done|]. destruct (f y); [done|apply IH].
Qed.

(** X16. [GetSession] returns the first session with the given id: a
    returned session is stored and has that id, the first stored session with
    the id is the one returned, and the call fails exactly when no stored
    session has the id. *)
Theorem GetSession_first_match (id : string) (d : db.Database.t) :
  (∀ s, db.GetSession id d = db.Return s →
        s ∈ db.Database.Sessions d ∧ db.ChatSession.ID s = id) ∧
  (∀ pre s post,
     db.Database.Sessions d = pre ++ s :: post →
     db.ChatSession.ID s = id →
     (∀ s', s' ∈ pre → db.ChatSession.ID s' ≠ id) →
     db.GetSession id d = db.Return s) ∧
  ((∃ err, db.GetSession id d = db.Error err) ↔
   ∀ s, s ∈ db.Database.Sessions d → db.ChatSession.ID s ≠ id).
Proof.
  unfold db.GetSession. split; [|split].
  - intros s.
    destruct (List.find _ _) as [s0|] eqn:Hfind; [|done].
    intros [= ->]. apply find_elem_of in Hfind as [Hin Hid].
    split; [done|]. by apply bool_decide_eq_true in Hid.
  - intros pre s post -> Hid Hpre.
    rewrite (find_first _ pre post s); [done| |by apply bool_decide_eq_true].
    intros s' Hs'. apply bool_decide_eq_false. by apply Hpre.
  - split.
    + intros [err Herr] s Hin Hid.
      destruct (List.find _ _) as [s0|] eqn:Hfind; [done|].
      apply list_elem_of_In in Hin.
      pose proof (find_none _ _ Hfind s Hin) as Hs. cbn in Hs.
      by apply bool_decide_eq_false in Hs.
    + intros Hnone.
      destruct (List.find _ _) as [s0|] eqn:Hfind; [|by eexists].
      apply find_elem_of in Hfind as [Hin Hid].
      apply bool_decide_eq_true in Hid. by destruct (Hnone s0 Hin).
Qed.

Lemma GetSession_created uuid now saveErr d :
  (∀ s, s ∈ db.Database.Sessions d → db.ChatSession.ID s ≠ uuid) →
  db.GetSession uuid (fst (db.CreateSession uuid now saveErr d))
  = db.Return (db.ChatSession.mk uuid now).
Proof.
  intros Hfresh.
  assert (db.Database.Sessions (fst (db.CreateSession uuid now saveErr d))
          = db.Database.Sessions d ++ [db.ChatSession.mk uuid now]) as Hs
    by (unfold db.CreateSession; by destruct saveErr).
  unfold db.GetSession. rewrite Hs.
  rewrite (find_first _ (db.Database.Sessions d) [] (db.ChatSession.mk uuid now)).
  - done.
  - intros s Hin. apply bool_decide_eq_false. by apply Hfresh.
  - by apply bool_decide_eq_true.
Qed.

(** X17. A created session can be looked up at once, whether or not the
    save to disk succeeded: when no stored session has the new id,
    [GetSession] of that id returns the new session; every lookup that
    succeeded before returns the same session afterwards; and a successful
    [CreateSession] returns the session it stored. *)
Theorem CreateSession_then_GetSession
    (uuid : string) (now : db.Time) (saveErr : option string) (d : db.Database.t) :
  let d' := fst (db.CreateSession uuid now saveErr d) in
  db.Database.Sessions d' = db.Database.Sessions d ++ [db.ChatSession.mk uuid now] ∧
  db.Database.Messages d' = db.Database.Messages d ∧
  ((∀ s, s ∈ db.Database.Sessions d → db.ChatSession.ID s ≠ uuid) →
   db.GetSession uuid d' = db.Return (db.ChatSession.mk uuid now)) ∧
  (∀ id s, db.GetSession id d = db.Return s → db.GetSession id d' = db.Return s) ∧
  (saveErr = None →
   snd (db.CreateSession uuid now saveErr d) = db.Return (db.ChatSession.mk uuid now)).
Proof.
  assert (fst (db.CreateSession uuid now saveErr d)
          = db.Database.mk (db.Database.Sessions d ++ [db.ChatSession.mk uuid now])
              (db.Database.Messages d) (db.Database.DataDir d)) as Hd'.
  { unfold db.CreateSession. by destruct saveErr. }
  cbv zeta. rewrite Hd'. cbn [db.Database.Sessions db.Database.Messages].
  split; [done|]. split; [done|]. split; [|split].
  - intros Hfresh. rewrite <- Hd'. by apply GetSession_created.
  - intros id s. unfold db.GetSession; cbn [db.Database.Sessions].
    destruct (List.find _ (db.Database.Sessions d)) as [s0|] eqn:Hfind; [|done].
    intros [= ->]. by rewrite (find_app_l _ _ _ _ Hfind).
  - intros ->. done.
Qed.

Lemma CreateSession_then_GetSession_witness :
  db.Database.Sessions (fst (db.CreateSession "S9" 7%Z (Some "disk full") one_message_db))
  = db.Database.Sessions one_message_db ++ [db.ChatSession.mk "S9" 7%Z] ∧
  db.GetSession "S9" (fst (db.CreateSession "S9" 7%Z (Some "disk full") one_message_db))
  = db.Return (db.ChatSession.mk "S9" 7%Z).
Proof.
  destruct (CreateSession_then_GetSession "S9" 7%Z (Some "disk full") one_message_db)
    as (Hsessions & _ & Hget & _).
  split; [exact Hsessions|]. apply Hget.
  apply (proj1 (Forall_forall (λ s, db.ChatSession.ID s ≠ "S9") _)).
  apply (bool_decide_unpack _). vm_compute. exact I.
Defined.

(** [merge_sort_slice] meets the contract of [sort.Slice]. *)
Lemma merge_sort_slice_perm less l : merge_sort_slice less l ≡ₚ l.
Proof. apply merge_sort_Permutation. Qed.

Lemma not_after_before a b : not_after db.before a b ↔ db.created_le a b.
Proof.
  unfold not_after, db.before, db.created_le.
  rewrite bool_decide_eq_false. lia.
Qed.

Lemma merge_sort_slice_sorted l :
  StronglySorted db.created_le (merge_sort_slice db.before l).
Proof.
  assert (Transitive (not_after db.before)) as Htrans.
  { intros a b c. rewrite !not_after_before. unfold db.created_le. lia. }
  assert (Total (not_after db.before)) as Htotal.
  { intros a b. rewrite !not_after_before. unfold db.created_le. lia. }
  pose proof (StronglySorted_merge_sort (not_after db.before) l) as Hsorted.
  fold (merge_sort_slice db.before l) in Hsorted.
  induction Hsorted as [|a l' _ IH Hall]; constructor; [done|].
  eapply Forall_impl; [exact Hall|]. intros b. by rewrite not_after_before.
Qed.

(** X18. Given a [sort.Slice] that permutes its argument and leaves it
    ordered by the comparison it is given, [GetMessages] returns exactly the
    stored messages of the session, each as often as it is stored, in
    non-decreasing order of creation time. *)
Theorem GetMessages_selects_and_sorts
    (sort_slice : (db.Message.t → db.Message.t → bool) →
                  list db.Message.t → list db.Message.t)
    (sessionID : string) (d : db.Database.t) :
  (∀ l, sort_slice db.before l ≡ₚ l) →
  (∀ l, StronglySorted db.created_le (sort_slice db.before l)) →
  db.GetMessages sort_slice sessionID d
  ≡ₚ filter (λ m, db.Message.SessionID m = sessionID) (db.Database.Messages d) ∧
  (∀ m, m ∈ db.GetMessages sort_slice sessionID d ↔
        m ∈ db.Database.Messages d ∧ db.Message.SessionID m = sessionID) ∧
  StronglySorted db.created_le (db.GetMessages sort_slice sessionID d).
Proof.
  intros Hperm Hsorted. unfold db.GetMessages. split; [apply Hperm|]. split; [|apply Hsorted].
  intros m. rewrite Hperm, list_elem_of_filter. tauto.
Qed.

Lemma GetMessages_selects_and_sorts_witness :
  db.GetMessages merge_sort_slice "S2" one_message_db
  ≡ₚ filter (λ m, db.Message.SessionID m = "S2") (db.Database.Messages one_message_db) ∧
  (∀ m, m ∈ db.GetMessages merge_sort_slice "S2" one_message_db ↔
        m ∈ db.Database.Messages one_message_db ∧ db.Message.SessionID m = "S2") ∧
  StronglySorted db.created_le (db.GetMessages merge_sort_slice "S2" one_message_db).
Proof.
  apply (GetMessages_selects_and_sorts merge_sort_slice "S2" one_message_db).
  - exact (merge_sort_slice_perm db.before).
  - exact merge_sort_slice_sorted.
Defined.

(** What [CreateMessage] stores: the message with an empty id replaced by
    the fresh one and a zero creation time by the current one. *)
Lemma CreateMessage_stored uuid now saveErr msg d :
  ∃ m',
    db.Database.Messages (fst (db.CreateMessage uuid now saveErr msg d))
    = db.Database.Messages d ++ [m'] ∧
    db.Database.Sessions (fst (db.CreateMessage uuid now saveErr msg d))
    = db.Database.Sessions d ∧
    snd (db.CreateMessage uuid now saveErr msg d)
    = match saveErr with Some err => db.Error err | None => db.Return m' end ∧
    db.Message.ID m' = (if decide (db.Message.ID msg = "") then uuid else db.Message.ID msg) ∧
    db.Message.CreatedAt m'
    = (if decide (db.Message.CreatedAt msg = 0%Z) then now else db.Message.CreatedAt msg) ∧
    db.Message.SessionID m' = db.Message.SessionID msg ∧
    db.Message.Content m' = db.Message.Content msg ∧
    db.Message.MessageType m' = db.Message.MessageType msg ∧
    db.Message.FileURL m' = db.Message.FileURL msg ∧
    db.Message.SenderName m' = db.Message.SenderName msg.
Proof.
  unfold db.CreateMessage.
  destruct (decide (db.Message.ID msg = "")) as [Hid|Hid];
    destruct (decide (db.Message.CreatedAt msg = 0%Z)) as [Ht|Ht];
    cbn [db.Message.CreatedAt]; rewrite ?decide_True, ?decide_False by done;
    eexists; (split; [by destruct saveErr|]); (split; [by destruct saveErr|]);
    (split; [by destruct saveErr|]); done.
Qed.

(** X19. A created message is visible to [GetMessages] at once, whether or
    not the save to disk succeeded: the stored message is the given one with
    an empty id replaced by the fresh id and a zero creation time by the
    current time; the messages of its session are the earlier ones and the
    stored one; the answer for every other session is exactly what it was;
    a successful call returns the stored message and a failed one the
    error of the save. *)
Theorem CreateMessage_then_GetMessages
    (sort_slice : (db.Message.t → db.Message.t → bool) →
                  list db.Message.t → list db.Message.t)
    (uuid : string) (now : db.Time) (saveErr : option string)
    (msg : db.Message.t) (d : db.Database.t) :
  (∀ l, sort_slice db.before l ≡ₚ l) →
  ∃ m',
    db.Database.Messages (fst (db.CreateMessage uuid now saveErr msg d))
    = db.Database.Messages d ++ [m'] ∧
    snd (db.CreateMessage uuid now saveErr msg d)
    = match saveErr with Some err => db.Error err | None => db.Return m' end ∧
    db.Message.ID m' = (if decide (db.Message.ID msg = "") then uuid else db.Message.ID msg) ∧
    db.Message.CreatedAt m'
    = (if decide (db.Message.CreatedAt msg = 0%Z) then now else db.Message.CreatedAt msg) ∧
    db.Message.SessionID m' = db.Message.SessionID msg ∧
    db.Message.Content m' = db.Message.Content msg ∧
    db.GetMessages sort_slice (db.Message.SessionID msg)
      (fst (db.CreateMessage uuid now saveErr msg d))
    ≡ₚ m' :: db.GetMessages sort_slice (db.Message.SessionID msg) d ∧
    ∀ sessionID, sessionID ≠ db.Message.SessionID msg →
      db.GetMessages sort_slice sessionID (fst (db.CreateMessage uuid now saveErr msg d))
      = db.GetMessages sort_slice sessionID d.
Proof.
  intros Hperm.
  destruct (CreateMessage_stored uuid now saveErr msg d)
    as (m' & Hmsgs & _ & Hres & Hid & Ht & Hsid & Hcontent & _).
  exists m'. repeat (split; [done|]). split.
  - unfold db.GetMessages. rewrite !Hperm, Hmsgs, filter_app.
    rewrite (filter_singleton_True _ _ []) by done.
    by rewrite Permutation_app_comm.
  - intros sessionID Hne. unfold db.GetMessages. rewrite Hmsgs, filter_app.
    rewrite (filter_singleton_False _ _ []) by (by rewrite Hsid).
    by rewrite app_nil_r.
Qed.

Lemma CreateMessage_then_GetMessages_witness :
  ∃ m',
    db.Database.Messages (fst (db.CreateMessage "m1" 9%Z (Some "disk full") hello one_message_db))
    = db.Database.Messages one_message_db ++ [m'] ∧
    snd (db.CreateMessage "m1" 9%Z (Some "disk full") hello one_message_db)
    = db.Error "disk full" ∧
    db.Message.ID m' = "m1" ∧
    db.Message.CreatedAt m' = 9%Z ∧
    db.Message.SessionID m' = "S1" ∧
    db.Message.Content m' = Some "hello" ∧
    db.GetMessages merge_sort_slice "S1"
      (fst (db.CreateMessage "m1" 9%Z (Some "disk full") hello one_message_db))
    ≡ₚ m' :: db.GetMessages merge_sort_slice "S1" one_message_db ∧
    ∀ sessionID, sessionID ≠ "S1" →
      db.GetMessages merge_sort_slice sessionID
        (fst (db.CreateMessage "m1" 9%Z (Some "disk full") hello one_message_db))
      = db.GetMessages merge_sort_slice sessionID one_message_db.
Proof.
  apply (CreateMessage_then_GetMessages merge_sort_slice "m1" 9%Z (Some "disk full")
           hello one_message_db).
  exact (merge_sort_slice_perm db.before).
Defined.

(** ** The handlers and the hub together *)

(** X20. A join on the topic under which [handleMessages] publishes the
    messages of session [S], on a session whose channel is open with room
    for two frames, is acknowledged with the filter ["session_id=eq."]
    followed by [S] and with the channel ["messages:"] followed by [S], and
    subscribes the session to that topic; no topic built this way is too
    short for the slices. *)
Theorem join_on_message_topic
    (marshal : OutgoingMessage.t → option Frame)
    (c : ptr) (S ref : string) (payload ack notice : Frame) (w : World) :
  marshal (join_reply (handlers.message_topic S) ref S) = Some ack →
  marshal (system_reply (handlers.message_topic S) ("messages:" +:+ S)) = Some notice →
  is_closed c w = false →
  length (queue c w) + 2 ≤ sendCap →
  ∃ w', handleMessage marshal c
          (IncomingMessage.mk (handlers.message_topic S) "phx_join" payload ref) w
        = Ok tt w' ∧
        queue c w' = queue c w ++ [ack; notice] ∧
        c ∈ subscribers (handlers.message_topic S) w' ∧
        handlers.message_topic S ∈ joined c w'.
Proof.
  intros Hack Hnotice Hopen Hroom.
  assert (String.length (handlers.message_topic S) = 18 + String.length S) as Hlen
    by apply (length_append "realtime:messages:" S).
  destruct (handleMessage_join_ok marshal c
              (IncomingMessage.mk (handlers.message_topic S) "phx_join" payload ref)
              ack notice w)
    as (w' & Hrun & Hq & Hsubs & Hjoined & _); cbn [IncomingMessage.Topic IncomingMessage.Ref].
  - done.
  - lia.
  - rewrite <- Hack. do 2 f_equal.
    apply (substring_drop_prefix "realtime:messages:" S).
  - rewrite <- Hnotice. do 2 f_equal.
    apply (substring_drop_prefix "realtime:" ("messages:" +:+ S)).
  - done.
  - done.
  - exists w'. split; [done|]. split; [done|].
    cbn [IncomingMessage.Topic] in Hsubs, Hjoined. rewrite Hsubs, Hjoined. set_solver.
Qed.

Lemma join_on_message_topic_witness :
  ∃ w', handleMessage plain_marshal 1
          (IncomingMessage.mk (handlers.message_topic "S1") "phx_join" [] "4")
          one_session_world
        = Ok tt w' ∧
        queue 1 w' = queue 1 one_session_world
                     ++ [String.list_byte_of_string "realtime:messages:S1|phx_reply|4";
                         String.list_byte_of_string "realtime:messages:S1|system|"] ∧
        1 ∈ subscribers (handlers.message_topic "S1") w' ∧
        handlers.message_topic "S1" ∈ joined 1 w'.
Proof.
  apply (join_on_message_topic plain_marshal 1 "S1" "4" []
           (String.list_byte_of_string "realtime:messages:S1|phx_reply|4")
           (String.list_byte_of_string "realtime:messages:S1|system|")
           one_session_world).
  - reflexivity.
  - reflexivity.
  - vm_compute. reflexivity.
  - vm_compute. lia.
Defined.

Section Handlers.

Variable sort_slice :
  (db.Message.t → db.Message.t → bool) → list db.Message.t → list db.Message.t.
Variable marshal : OutgoingMessage.t → option Frame.
Variable time_value : db.Time → Value.
Variable record_value : db.Message.t → Value.
Variable columns_value ids_value : Value.

(** X21. A POST of a message that decodes and is saved: the handler answers
    201 with the stored message, the message is appended to the stored ones,
    and every session subscribed to the topic of the message's session, all
    of them with open channels and room, gets exactly one frame, the
    serialized [postgres_changes] envelope; sessions that are not subscribed
    to that topic are untouched, and the registry is unchanged. *)
Theorem post_message_is_announced
    (uuid : string) (now : db.Time) (order : list ptr) (sessionIDParam : string)
    (msg m' : db.Message.t) (d d' : db.Database.t) (data : Frame) (w : World) :
  db.CreateMessage uuid now None msg d = (d', db.Return m') →
  order ≡ₚ elements (subscribers (handlers.message_topic (db.Message.SessionID m')) w) →
  marshal (OutgoingMessage.mk (handlers.message_topic (db.Message.SessionID m'))
             "postgres_changes"
             (handlers.change_payload time_value record_value columns_value ids_value m')
             "") = Some data →
  (∀ c, c ∈ subscribers (handlers.message_topic (db.Message.SessionID m')) w →
        is_closed c w = false ∧ length (queue c w) < sendCap) →
  ∃ w', handlers.handleMessages sort_slice marshal time_value record_value
          columns_value ids_value uuid now None order "POST" sessionIDParam
          (db.Return msg) d w
        = Ok (d', handlers.EncodeMessages handlers.StatusCreated [m']) w' ∧
        db.Database.Messages d' = db.Database.Messages d ++ [m'] ∧
        (∀ c, c ∈ subscribers (handlers.message_topic (db.Message.SessionID m')) w →
              queue c w' = queue c w ++ [data]) ∧
        (∀ c, c ∉ subscribers (handlers.message_topic (db.Message.SessionID m')) w →
              get_client c w' = get_client c w) ∧
        Hub.topics (hub w') = Hub.topics (hub w) ∧
        (∀ c, c ∈ live w' ↔ c ∈ live w).
Proof.
  intros Hcreate Hperm Hdata Hready.
  destruct (Broadcast_open marshal order
              (handlers.message_topic (db.Message.SessionID m')) "postgres_changes"
              (handlers.change_payload time_value record_value columns_value ids_value m')
              data w Hperm Hdata)
    as (w' & Hrun & Htopics & _ & Hother & Hlive & Hsubs).
  { intros c Hc. by apply Hready. }
  assert (∀ c, c ∈ subscribers (handlers.message_topic (db.Message.SessionID m')) w →
               has_room c w = true) as Hroom.
  { intros c Hc. apply bool_decide_eq_true. by apply Hready. }
  exists w'. split; [|split; [|split; [|split; [|split]]]].
  - unfold handlers.handleMessages.
    destruct (decide ("POST" = "POST")) as [_|[]]; [|done].
    rewrite Hcreate. unfold bind. by rewrite Hrun.
  - destruct (CreateMessage_stored uuid now None msg d) as (m0 & Hmsgs & _ & Hres & _).
    rewrite Hcreate in Hmsgs, Hres. cbn in Hmsgs, Hres. by injection Hres as ->.
  - intros c Hc. specialize (Hsubs c Hc). rewrite (Hroom c Hc) in Hsubs. tauto.
  - done.
  - done.
  - intros c. rewrite Hlive. split; [tauto|]. intros Hc. split; [done|].
    intros [Hs Hfull]. by rewrite (Hroom c Hs) in Hfull.
Qed.

(** X22. A POST of a message whose save fails is answered 500 and is not
    announced: the world is exactly as it was.  The message has nevertheless
    been appended in memory, and a later GET for its session lists it. *)
Theorem post_save_failure_is_silent
    (uuid : string) (now : db.Time) (err : string) (order order' : list ptr)
    (sessionIDParam : string) (decoded : db.res db.Message.t)
    (msg : db.Message.t) (d : db.Database.t) (w : World) :
  (∀ l, sort_slice db.before l ≡ₚ l) →
  ∃ d' m' listed,
    handlers.handleMessages sort_slice marshal time_value record_value
      columns_value ids_value uuid now (Some err) order "POST" sessionIDParam
      (db.Return msg) d w
    = Ok (d', handlers.HttpError handlers.StatusInternalServerError err) w ∧
    db.Database.Messages d' = db.Database.Messages d ++ [m'] ∧
    db.Message.SessionID m' = db.Message.SessionID msg ∧
    handlers.handleMessages sort_slice marshal time_value record_value
      columns_value ids_value uuid now None order' "GET"
      ("eq." +:+ db.Message.SessionID msg) decoded d' w
    = Ok (d', handlers.EncodeMessages handlers.StatusOK listed) w ∧
    m' ∈ listed.
Proof.
  intros Hperm.
  destruct (CreateMessage_stored uuid now (Some err) msg d)
    as (m' & Hmsgs & _ & Hres & _ & _ & Hsid & _).
  destruct (db.CreateMessage uuid now (Some err) msg d) as [d' r] eqn:Hcreate.
  cbn in Hmsgs, Hres. subst r.
  exists d', m', (db.GetMessages sort_slice (db.Message.SessionID msg) d').
  split; [|split; [done|split; [done|split]]].
  - unfold handlers.handleMessages.
    destruct (decide ("POST" = "POST")) as [_|[]]; [|done]. by rewrite Hcreate.
  - unfold handlers.handleMessages.
    destruct (decide ("GET" = "POST")) as [[=]|_].
    destruct (decide ("GET" = "GET")) as [_|[]]; [|done].
    rewrite decide_False by done. by rewrite extractEqValue_eq.
  - unfold db.GetMessages. rewrite Hperm, list_elem_of_filter, Hmsgs.
    split; [done|]. apply elem_of_app. right. by left.
Qed.

End Handlers.

Lemma post_message_is_announced_witness :
  ∃ w', handlers.handleMessages merge_sort_slice plain_marshal
          (λ _, VNil) (λ _, VNil) VNil VNil "m1" 9%Z None
          (elements (subscribers (handlers.message_topic "S1") two_joined_world))
          "POST" "" (db.Return hello) one_message_db two_joined_world
        = Ok (fst (db.CreateMessage "m1" 9%Z None hello one_message_db),
              handlers.EncodeMessages handlers.StatusCreated
                [db.Message.mk "m1" "S1" (Some "hello") "text" None None 9%Z]) w' ∧
        db.Database.Messages (fst (db.CreateMessage "m1" 9%Z None hello one_message_db))
        = db.Database.Messages one_message_db
          ++ [db.Message.mk "m1" "S1" (Some "hello") "text" None None 9%Z] ∧
        (∀ c, c ∈ subscribers (handlers.message_topic "S1") two_joined_world →
              queue c w' = queue c two_joined_world
                           ++ [String.list_byte_of_string
                                 "realtime:messages:S1|postgres_changes|"]) ∧
        (∀ c, c ∉ subscribers (handlers.message_topic "S1") two_joined_world →
              get_client c w' = get_client c two_joined_world) ∧
        Hub.topics (hub w') = Hub.topics (hub two_joined_world) ∧
        (∀ c, c ∈ live w' ↔ c ∈ live two_joined_world).
Proof.
  apply (post_message_is_announced merge_sort_slice plain_marshal
           (λ _, VNil) (λ _, VNil) VNil VNil "m1" 9%Z
           (elements (subscribers (handlers.message_topic "S1") two_joined_world))
           "" hello (db.Message.mk "m1" "S1" (Some "hello") "text" None None 9%Z)
           one_message_db (fst (db.CreateMessage "m1" 9%Z None hello one_message_db))
           (String.list_byte_of_string "realtime:messages:S1|postgres_changes|")
           two_joined_world).
  - reflexivity.
  - reflexivity.
  - reflexivity.
  - apply (bool_decide_unpack
             (set_Forall (λ c, is_closed c two_joined_world = false ∧
                               length (queue c two_joined_world) < sendCap)
                         (subscribers (handlers.message_topic "S1") two_joined_world))).
    vm_compute. exact I.
Defined.

Lemma post_save_failure_is_silent_witness :
  ∃ d' m' listed,
    handlers.handleMessages merge_sort_slice plain_marshal
      (λ _, VNil) (λ _, VNil) VNil VNil "m1" 9%Z (Some "disk full") [1; 2] "POST" ""
      (db.Return hello) one_message_db two_joined_world
    = Ok (d', handlers.HttpError handlers.StatusInternalServerError "disk full")
         two_joined_world ∧
    db.Database.Messages d' = db.Database.Messages one_message_db ++ [m'] ∧
    db.Message.SessionID m' = db.Message.SessionID hello ∧
    handlers.handleMessages merge_sort_slice plain_marshal
      (λ _, VNil) (λ _, VNil) VNil VNil "m1" 9%Z None [] "GET"
      ("eq." +:+ db.Message.SessionID hello) (db.Error "EOF") d' two_joined_world
    = Ok (d', handlers.EncodeMessages handlers.StatusOK listed) two_joined_world ∧
    m' ∈ listed.
Proof.
  apply (post_save_failure_is_silent merge_sort_slice plain_marshal
           (λ _, VNil) (λ _, VNil) VNil VNil "m1" 9%Z "disk full" [1; 2] [] ""
           (db.Error "EOF") hello one_message_db two_joined_world).
  exact (merge_sort_slice_perm db.before).
Defined.

(** X23. A GET on the sessions endpoint with a non-empty [id] parameter
    never answers an error status and never changes the database: when a
    session with the id (the parameter without a leading ["eq."]) is stored,
    the answer is 200 with that session; when none is, the answer is 200
    with a one-element list holding a nil session. *)
Theorem get_session_never_fails
    (uuid : string) (now : db.Time) (saveErr : option string)
    (idParam : string) (d : db.Database.t) :
  idParam ≠ "" →
  ∃ id, handlers.extractEqValue idParam = Some id ∧
        ((∃ s, handlers.handleChatSessions uuid now saveErr "GET" idParam d
               = (d, handlers.EncodeSession handlers.StatusOK s) ∧
               s ∈ db.Database.Sessions d ∧ db.ChatSession.ID s = id) ∨
         (handlers.handleChatSessions uuid now saveErr "GET" idParam d
          = (d, handlers.EncodeSessionList handlers.StatusOK [None]) ∧
          ∀ s, s ∈ db.Database.Sessions d → db.ChatSession.ID s ≠ id)).
Proof.
  intros Hparam.
  destruct (extractEqValue_cases idParam) as (id & Hid & _).
  exists id. split; [done|].
  unfold handlers.handleChatSessions.
  destruct (decide ("GET" = "POST")) as [[=]|_].
  destruct (decide ("GET" = "GET")) as [_|[]]; [|done].
  rewrite decide_False by done. rewrite Hid. unfold db.GetSession.
  destruct (List.find _ (db.Database.Sessions d)) as [s|] eqn:Hfind.
  - left. exists s. split; [done|].
    apply find_elem_of in Hfind as [Hin Hs]. split; [done|].
    by apply bool_decide_eq_true in Hs.
  - right. split; [done|]. intros s Hin.
    apply list_elem_of_In in Hin.
    pose proof (find_none _ _ Hfind s Hin) as Hs. cbn in Hs.
    by apply bool_decide_eq_false in Hs.
Qed.

Lemma get_session_never_fails_witness :
  ∃ id, handlers.extractEqValue "eq.nobody" = Some id ∧
        ((∃ s, handlers.handleChatSessions "u" 0%Z None "GET" "eq.nobody" one_message_db
               = (one_message_db, handlers.EncodeSession handlers.StatusOK s) ∧
               s ∈ db.Database.Sessions one_message_db ∧ db.ChatSession.ID s = id) ∨
         (handlers.handleChatSessions "u" 0%Z None "GET" "eq.nobody" one_message_db
          = (one_message_db, handlers.EncodeSessionList handlers.StatusOK [None]) ∧
          ∀ s, s ∈ db.Database.Sessions one_message_db → db.ChatSession.ID s ≠ id)).
Proof.
  apply (get_session_never_fails "u" 0%Z None "eq.nobody" one_message_db).
  discriminate.
Defined.

(** X24. A session created by a POST on the sessions endpoint, under an id
    no stored session has, is returned by the GET for that id with the
    ["eq."] prefix, whether or not the save of the POST succeeded; the POST
    itself answers 200 with the session, or 500 with the error of the
    save. *)
Theorem post_then_get_session
    (uuid uuid' : string) (now now' : db.Time) (saveErr saveErr' : option string)
    (idParam : string) (d : db.Database.t) :
  (∀ s, s ∈ db.Database.Sessions d → db.ChatSession.ID s ≠ uuid) →
  ∃ d',
    handlers.handleChatSessions uuid now saveErr "POST" idParam d
    = (d', match saveErr with
           | None => handlers.EncodeSession handlers.StatusOK (db.ChatSession.mk uuid now)
           | Some err => handlers.HttpError handlers.StatusInternalServerError err
           end) ∧
    handlers.handleChatSessions uuid' now' saveErr' "GET" ("eq." +:+ uuid) d'
    = (d', handlers.EncodeSession handlers.StatusOK (db.ChatSession.mk uuid now)).
Proof.
  intros Hfresh.
  exists (fst (db.CreateSession uuid now saveErr d)). split.
  - unfold handlers.handleChatSessions.
    destruct (decide ("POST" = "POST")) as [_|[]]; [|done].
    unfold db.CreateSession. by destruct saveErr.
  - unfold handlers.handleChatSessions.
    destruct (decide ("GET" = "POST")) as [[=]|_].
    destruct (decide ("GET" = "GET")) as [_|[]]; [|done].
    rewrite decide_False by done. rewrite extractEqValue_eq.
    by rewrite GetSession_created.
Qed.

Lemma post_then_get_session_witness :
  ∃ d',
    handlers.handleChatSessions "S9" 7%Z (Some "disk full") "POST" "" one_message_db
    = (d', handlers.HttpError handlers.StatusInternalServerError "disk full") ∧
    handlers.handleChatSessions "u" 8%Z None "GET" ("eq." +:+ "S9") d'
    = (d', handlers.EncodeSession handlers.StatusOK (db.ChatSession.mk "S9" 7%Z)).
Proof.
  apply (post_then_get_session "S9" "u" 7%Z 8%Z (Some "disk full") None ""
           one_message_db).
  apply (proj1 (Forall_forall (λ s, db.ChatSession.ID s ≠ "S9") _)).
  apply (bool_decide_unpack _). vm_compute. exact I.
Defined.

(** X25. No branch of the routing chain of [ServeHTTP] shadows a later one:
    for every method other than OPTIONS, every path that starts with one of
    the five endpoint prefixes reaches the handler of that prefix, whatever
    follows the prefix; and a path shorter than every prefix is not found. *)
Theorem ServeHTTP_reaches_each_handler (method rest : string) :
  method ≠ "OPTIONS" →
  handlers.ServeHTTP method ("/rest/v1/chat_sessions" +:+ rest) = handlers.ToChatSessions ∧
  handlers.ServeHTTP method ("/rest/v1/messages" +:+ rest) = handlers.ToMessages ∧
  handlers.ServeHTTP method ("/storage/v1/object/chat-media/" +:+ rest)
  = handlers.ToStorageUpload ∧
  handlers.ServeHTTP method ("/storage/v1/object/public/chat-media/" +:+ rest)
  = handlers.ToStorageServe ∧
  handlers.ServeHTTP method ("/realtime/v1/websocket" +:+ rest) = handlers.ToServeWs ∧
  handlers.ServeHTTP method "/" = handlers.NotFound.
Proof.
  intros Hmethod. unfold handlers.ServeHTTP. rewrite !decide_False by done.
  repeat split.
  - by rewrite prefix_append.
  - rewrite (prefix_append "/rest/v1/messages" rest). reflexivity.
  - rewrite (prefix_append "/storage/v1/object/chat-media/" rest). reflexivity.
  - rewrite (prefix_append "/storage/v1/object/public/chat-media/" rest). reflexivity.
  - rewrite (prefix_append "/realtime/v1/websocket" rest). reflexivity.
Qed.

Lemma ServeHTTP_reaches_each_handler_witness :
  handlers.ServeHTTP "GET" ("/rest/v1/chat_sessions" +:+ "/x") = handlers.ToChatSessions ∧
  handlers.ServeHTTP "GET" ("/rest/v1/messages" +:+ "/x") = handlers.ToMessages ∧
  handlers.ServeHTTP "GET" ("/storage/v1/object/chat-media/" +:+ "/x")
  = handlers.ToStorageUpload ∧
  handlers.ServeHTTP "GET" ("/storage/v1/object/public/chat-media/" +:+ "/x")
  = handlers.ToStorageServe ∧
  handlers.ServeHTTP "GET" ("/realtime/v1/websocket" +:+ "/x") = handlers.ToServeWs ∧
  handlers.ServeHTTP "GET" "/" = handlers.NotFound.
Proof.
  apply (ServeHTTP_reaches_each_handler "GET" "/x").
  discriminate.
Defined.
